(** * Argument bots ([argubots.py]): a shallow embedding and its properties

    The module defines three agents on top of the course's [Agent] classes:
    [KialoAgent] and [KialoAgent2], which answer with a counter-argument
    looked up in a Kialo claim graph, and [RAG_Agent], an LLM agent.

    Python code with effects (random choices, logging, calls to the Kialo
    object and to the chat-completion client, exceptions, reads of the
    [Dialogue] object) is embedded as programs of a small free monad
    [Prog].  Two interpreters give them meaning: [run] resolves every call
    of the [random] module from a tape of raw draws, and [dist] computes
    the finite distribution of results, each draw being uniform. *)

From Stdlib Require Import String Ascii List ZArith QArith Lia.
From stdpp Require Import base option gmap strings list.
Import ListNotations.

Local Open Scope string_scope.
Local Open Scope list_scope.
Local Open Scope nat_scope.

(** ** Python strings *)

Module PyStr.

Definition nl : string := String "010"%char EmptyString.
Definition tab : string := String "009"%char EmptyString.
Definition dquote : string := String "034"%char EmptyString.

(** [sep.join(ls)] *)
Definition join (sep : string) (ls : list string) : string :=
  String.concat sep ls.

(** [s * n] *)
Fixpoint repeat (s : string) (n : nat) : string :=
  match n with
  | O => EmptyString
  | S n' => s +:+ repeat s n'
  end.

(** [s.startswith(p)] *)
Definition startswith (s p : string) : bool := String.prefix p s.

(** [s[n:]] for [0 <= n] *)
Fixpoint slice_from (n : nat) (s : string) : string :=
  match n, s with
  | O, _ => s
  | S _, EmptyString => EmptyString
  | S n', String _ s' => slice_from n' s'
  end.

(** [s.endswith(p)] *)
Definition endswith (s p : string) : bool :=
  String.eqb (slice_from (String.length s - String.length p) s) p
  && (String.length p <=? String.length s).

End PyStr.

(** ** Python sequences *)

Module PySeq.

(** The position that index [i] denotes in a sequence of length [n]:
    a negative index counts from the end. *)
Definition norm_index (n : nat) (i : Z) : option nat :=
  let j := if (i <? 0)%Z then (i + Z.of_nat n)%Z else i in
  if ((0 <=? j)%Z && (j <? Z.of_nat n)%Z)%bool then Some (Z.to_nat j) else None.

(** [range(n)] *)
Definition range (n : nat) : list nat := seq 0 n.

(** Truth value of a list: non-empty. *)
Definition truthy {A} (l : list A) : bool :=
  match l with [] => false | _ :: _ => true end.

End PySeq.

(** ** Data *)

(** A claim is identified by its text. *)
Definition Claim := string.

(** Modelled from the spec: [dialogue.py] is not among the sources.  A
    dialogue is an ordered sequence of turns, each with a speaker and a
    content; [d[i]['content']] reads the second. *)
Record Turn := mkTurn { speaker : string; content : string }.
Definition Dialogue := list Turn.

(** Objects live in a store; a [Dialogue] argument is a reference. *)
Definition ref := nat.

(** One message of the chat API, [{'role': ..., 'content': ...}]. *)
Record Message := mkMessage { role : string; msg_content : string }.

(** Keyword arguments, in order; a value is carried by its printed form. *)
Definition Kwargs := list (string * string).

(** The part of a chat completion that the code reads: for each choice
    the message content ([None] or a string) and the finish reason; and
    the printed form of the whole object, which is logged. *)
Record Choice := mkChoice { message_content : option string; finish_reason : string }.
Record Completion := mkCompletion { choices : list Choice; completion_repr : string }.

(** Exceptions; [APIError] stands for the errors of the client library. *)
Inductive Exn :=
| AssertionError (msg : string)
| IndexError
| ValueError (msg : string)
| TypeError
| APIError (msg : string).

Inductive Outcome (A : Type) :=
| Ok (a : A)
| Exc (e : Exn).
Arguments Ok {A} a.
Arguments Exc {A} e.

(** Calls that leave the process or are otherwise observable. *)
Inductive Call :=
| CallClosestClaims (s : string) (n : option nat) (kind : string)
| CallRandomChain
| CallLog (level : nat) (msg : string)
| CallChatCreate (messages : list Message) (model : string) (kw : Kwargs).

(** [logging.DEBUG] and [logging.INFO] *)
Definition DEBUG : nat := 10.
Definition INFO : nat := 20.

(** ** Programs *)

(** Primitive effects.  [Load] reads the dialogue behind a reference;
    [Append] adds a turn to it, the one operation by which the dialogue
    interface of the specification changes a dialogue ([dialogue.py] is
    not among the sources); [RandBelow n] is [random._randbelow(n)];
    [Emit] performs an observable call. *)
Inductive Event : Type -> Type :=
| Load (d : ref) : Event Dialogue
| Append (d : ref) (t : Turn) : Event unit
| RandBelow (n : nat) : Event nat
| Emit (c : Call) : Event unit
| GetEffectiveLevel : Event nat.

Inductive Prog (A : Type) : Type :=
| Ret (a : A)
| Raise (e : Exn)
| Vis {X : Type} (ev : Event X) (k : X -> Prog A).
Arguments Ret {A} a.
Arguments Raise {A} e.
Arguments Vis {A X} ev k.

Fixpoint pbind {A B} (p : Prog A) (f : A -> Prog B) : Prog B :=
  match p with
  | Ret a => f a
  | Raise e => Raise e
  | Vis ev k => Vis ev (fun x => pbind (k x) f)
  end.

#[export] Instance Prog_ret : MRet Prog := @Ret.
#[export] Instance Prog_bind : MBind Prog := fun A B f p => pbind p f.

Definition trigger {X} (ev : Event X) : Prog X := Vis ev Ret.

(** A function that returns or raises, called from a program. *)
Definition lift_outcome {A} (o : Outcome A) : Prog A :=
  match o with
  | Ok a => Ret a
  | Exc e => Raise e
  end.

(** A randomised computation that only draws: the shape of a method that
    uses nothing but the [random] module. *)
Inductive Rand (A : Type) : Type :=
| RDone (a : A)
| RDraw (n : nat) (k : nat -> Rand A).
Arguments RDone {A} a.
Arguments RDraw {A} n k.

Fixpoint lift_rand {A} (t : Rand A) : Prog A :=
  match t with
  | RDone a => Ret a
  | RDraw n k => Vis (RandBelow n) (fun i => lift_rand (k i))
  end.

(** *** The interpreter over a tape of draws *)

(** The generator: a tape of raw draws and the position of the next one. *)
Record Rng := mkRng { tape : nat -> nat; pos : nat }.

(** [_randbelow(n)]: a number below [n], and [0] when [n] is [0]. *)
Definition randbelow (n : nat) (g : Rng) : nat * Rng :=
  (match n with
   | O => O
   | S _ => tape g (pos g) mod n
   end, mkRng (tape g) (S (pos g))).
Arguments randbelow : simpl never.

(** What a program can read and change besides the generator: the
    dialogues in the store, the level of the logger, and the calls made
    so far, oldest first. *)
Record State := mkState {
  heap : ref -> Dialogue;
  log_level : nat;
  calls : list Call }.

Definition heap_set (h : ref -> Dialogue) (d : ref) (v : Dialogue) : ref -> Dialogue :=
  fun d' => if d' =? d then v else h d'.

Definition add_call (s : State) (c : Call) : State :=
  mkState (heap s) (log_level s) (calls s ++ [c]).

(** The effect of one event; [r] is the draw handed to [RandBelow]. *)
Definition handle {X} (ev : Event X) (r : nat) (s : State) : X * State :=
  match ev in Event X return X * State with
  | Load d => (heap s d, s)
  | Append d t => (tt, mkState (heap_set (heap s) d (heap s d ++ [t])) (log_level s) (calls s))
  | RandBelow _ => (r, s)
  | Emit c => (tt, add_call s c)
  | GetEffectiveLevel => (log_level s, s)
  end.

Definition draw_bound {X} (ev : Event X) : option nat :=
  match ev with
  | RandBelow n => Some n
  | _ => None
  end.

Fixpoint run {A} (p : Prog A) (g : Rng) (s : State) : Outcome A * Rng * State :=
  match p with
  | Ret a => (Ok a, g, s)
  | Raise e => (Exc e, g, s)
  | Vis ev k =>
      let '(r, g') := match draw_bound ev with
                      | Some n => randbelow n g
                      | None => (O, g)
                      end in
      let '(x, s') := handle ev r s in
      run (k x) g' s'
  end.

Definition result {A} (o : Outcome A * Rng * State) : Outcome A := fst (fst o).
Definition final {A} (o : Outcome A * Rng * State) : State := snd o.

(** The calls a run added to those of its initial state. *)
Definition new_calls {A} (o : Outcome A * Rng * State) (s : State) : list Call :=
  drop (length (calls s)) (calls (final o)).

(** *** The interpreter into finite distributions *)

Definition Dist (A : Type) := list (Q * A).

Definition dret {A} (a : A) : Dist A := [(1%Q, a)].

Definition dbind {A B} (m : Dist A) (f : A -> Dist B) : Dist B :=
  flat_map (fun '(w, a) => map (fun '(w', b) => (Qmult w w', b)) (f a)) m.

(** Every position of [l] with the same weight [1 / len(l)]. *)
Definition uniform {A} (l : list A) : Dist A :=
  map (fun a => (Qmake 1 (Pos.of_nat (length l)), a)) l.

(** The values [_randbelow(n)] takes. *)
Definition draws (n : nat) : list nat :=
  match n with
  | O => [O]
  | S _ => seq 0 n
  end.

Fixpoint dist {A} (p : Prog A) (s : State) : Dist (Outcome A * State) :=
  match p with
  | Ret a => dret (Ok a, s)
  | Raise e => dret (Exc e, s)
  | Vis ev k =>
      match draw_bound ev with
      | Some n => dbind (uniform (draws n))
                    (fun r => let '(x, s') := handle ev r s in dist (k x) s')
      | None => let '(x, s') := handle ev O s in dist (k x) s'
      end
  end.

Definition support {A} (m : Dist A) : list A := map snd m.

(** *** Randomised computations on their own *)

(** Running a drawing computation from the tape. *)
Fixpoint sample {A} (t : Rand A) (g : Rng) : A * Rng :=
  match t with
  | RDone a => (a, g)
  | RDraw n k => let '(r, g') := randbelow n g in sample (k r) g'
  end.

(** The values a drawing computation can return. *)
Inductive Rand_out {A} : Rand A -> A -> Prop :=
| Rand_out_done (a : A) : Rand_out (RDone a) a
| Rand_out_draw (n : nat) (k : nat -> Rand A) (r : nat) (a : A) :
    In r (draws n) -> Rand_out (k r) a -> Rand_out (RDraw n k) a.

(** *** Programs that leave the dialogues alone *)

Definition is_append {X} (ev : Event X) : bool :=
  match ev with
  | Append _ _ => true
  | _ => false
  end.

(** No path of the program reaches an [Append]. *)
Fixpoint read_only {A} (p : Prog A) : Prop :=
  match p with
  | Ret _ => True
  | Raise _ => True
  | Vis ev k => is_append ev = false /\ forall x, read_only (k x)
  end.

Definition is_closest_claims (c : Call) : bool :=
  match c with
  | CallClosestClaims _ _ _ => true
  | _ => false
  end.

(** ** Python operations used by the agents *)

(** [l[i]] *)
Definition getitem {A} (l : list A) (i : Z) : Prog A :=
  match PySeq.norm_index (length l) i with
  | Some j =>
      match l !! j with
      | Some x => Ret x
      | None => Raise IndexError
      end
  | None => Raise IndexError
  end.

(** [len(d)] and [d[i]] on a dialogue in the store *)
Definition len (d : ref) : Prog nat :=
  turns ← trigger (Load d); mret (length turns).

Definition getturn (d : ref) (i : Z) : Prog Turn :=
  turns ← trigger (Load d); getitem turns i.

(** [assert cond, msg] *)
Definition py_assert (cond : bool) (msg : string) : Prog unit :=
  if cond then Ret tt else Raise (AssertionError msg).

(** [random.choice(seq)]: an element at a drawn position; [IndexError]
    on an empty sequence. *)
Definition random_choice {A} (seq : list A) : Prog A :=
  if PySeq.truthy seq
  then i ← trigger (RandBelow (length seq)); getitem seq (Z.of_nat i)
  else Raise IndexError.

(** [log.info(msg)] and [log.debug(msg)] *)
Definition log_info (msg : string) : Prog unit := trigger (Emit (CallLog INFO msg)).
Definition log_debug (msg : string) : Prog unit := trigger (Emit (CallLog DEBUG msg)).

(** A call [f(k1=.., .., **kw)] raises [TypeError] when [kw] repeats one
    of the keywords given explicitly. *)
Definition kw_clash (given : list string) (kw : Kwargs) : bool :=
  existsb (fun '(k, _) => existsb (String.eqb k) given) kw.

Definition kw_lookup (kw : Kwargs) (k : string) : option string :=
  snd <$> find (fun '(k', _) => String.eqb k' k) kw.

(** [a | b] on dictionaries: the keys of [a] in their order with the
    values of [b] where it has them, then the other keys of [b]. *)
Definition dict_or (a b : Kwargs) : Kwargs :=
  map (fun '(k, v) => (k, default v (kw_lookup b k))) a
  ++ filter (fun '(k, _) => negb (bool_decide (is_Some (kw_lookup a k)))) b.

(** ** The Kialo claim graph *)

Module Kialo.

(** Modelled from the spec: [kialo.py] is not among the sources.  A
    graph offers the ranked lookup [closest_claims(s, n, kind)] ([n] is
    optional), the random walk [random_chain()], and the dictionaries
    [pros] and [cons] from a claim to its direct pro and con claims. *)
Record t := mk {
  closest_claims_fn : string -> option nat -> string -> list Claim;
  random_chain_fn : Rand (list Claim);
  pros_dict : gmap Claim (list Claim);
  cons_dict : gmap Claim (list Claim) }.

(** Modelled from the spec: direct edge lookup, empty if none. *)
Definition pros (k : t) (c : Claim) : list Claim := default [] (pros_dict k !! c).
Definition cons (k : t) (c : Claim) : list Claim := default [] (cons_dict k !! c).

Definition closest_claims (k : t) (s : string) (n : option nat) (kind : string)
  : Prog (list Claim) :=
  trigger (Emit (CallClosestClaims s n kind));;
  mret (closest_claims_fn k s n kind).

Definition random_chain (k : t) : Prog (list Claim) :=
  trigger (Emit CallRandomChain);;
  lift_rand (random_chain_fn k).

End Kialo.

(** ** [KialoAgent] *)

Module KialoAgent.

Record t := mk { name : string; kialo : Kialo.t }.

Definition no_claims_msg : string :=
  "No claims to choose from; is Kialo data structure empty?".

Definition chose_msg (neighbor : Claim) : string :=
  "[black on bright_green]Chose similar claim from Kialo:" +:+ PyStr.nl
  +:+ neighbor +:+ "[/black on bright_green]".

(** [d[-1]['content']] *)
Definition previous_turn (d : ref) : Prog string :=
  turn ← getturn d (-1);
  mret (content turn).

Definition response (self : t) (d : ref) : Prog string :=
  n ← len d;
  if n =? 0 then
    chain ← Kialo.random_chain (kialo self);
    claim ← getitem chain 0;
    mret claim
  else
    previous_turn ← previous_turn d;
    neighbors ← Kialo.closest_claims (kialo self) previous_turn (Some 3) "has_cons";
    py_assert (PySeq.truthy neighbors) no_claims_msg;;
    neighbor ← random_choice neighbors;
    log_info (chose_msg neighbor);;
    claim ← random_choice (Kialo.cons (kialo self) neighbor);
    mret claim.

End KialoAgent.

(** ** [KialoAgent2] *)

Module KialoAgent2.

Record t := mk { name : string; kialo : Kialo.t }.

(** [";".join([ d[i]['content']*(i+1) for i in range(len(d)) ])] *)
Definition previous_turn (d : ref) : Prog string :=
  n ← len d;
  parts ← mapM (fun i => turn ← getturn d (Z.of_nat i);
                         mret (PyStr.repeat (content turn) (i + 1)))
               (PySeq.range n);
  mret (PyStr.join ";" parts).

Definition response (self : t) (d : ref) : Prog string :=
  n ← len d;
  if n =? 0 then
    chain ← Kialo.random_chain (kialo self);
    claim ← getitem chain 0;
    mret claim
  else
    previous_turn ← previous_turn d;
    neighbors ← Kialo.closest_claims (kialo self) previous_turn (Some 3) "has_cons";
    py_assert (PySeq.truthy neighbors) KialoAgent.no_claims_msg;;
    neighbor ← random_choice neighbors;
    log_info (KialoAgent.chose_msg neighbor);;
    claim ← random_choice (Kialo.cons (kialo self) neighbor);
    mret claim.

End KialoAgent2.

(** ** [kialo_responses] *)

Definition related_claim_msg (c : Claim) : string :=
  "One possibly related claim from the Kialo debate website:" +:+ PyStr.nl +:+ PyStr.tab
  +:+ PyStr.dquote +:+ c +:+ PyStr.dquote.

Definition bullet_sep : string := PyStr.nl +:+ PyStr.tab +:+ "* ".

Definition in_favor_msg : string :=
  "Some arguments from other Kialo users in favor of that claim:".

Definition against_msg : string :=
  "Some arguments from other Kialo users against that claim:".

Definition kialo_responses (kialo : Kialo.t) (s : string) : Prog string :=
  neighbors ← Kialo.closest_claims kialo s None "has_cons";
  c ← getitem neighbors 0;
  let result := related_claim_msg c in
  let result :=
    if PySeq.truthy (Kialo.pros kialo c)
    then result +:+ PyStr.nl +:+ PyStr.join bullet_sep (in_favor_msg :: Kialo.pros kialo c)
    else result in
  let result :=
    if PySeq.truthy (Kialo.cons kialo c)
    then result +:+ PyStr.nl +:+ PyStr.join bullet_sep (against_msg :: Kialo.cons kialo c)
    else result in
  mret result.

(** ** [RAG_Agent] *)

Module RAG_Agent.

(** The chat-completion client: what [client.chat.completions.create]
    returns or raises for the messages, the model and the options. *)
Definition Client := list Message -> string -> Kwargs -> Outcome Completion.

(** The attributes that [LLMAgent.__init__] sets and [response] reads. *)
Record t := mk {
  name : string;
  model : string;
  kwargs_format : Kwargs;
  kwargs_llm : Kwargs;
  client : Client }.

Definition no_content_msg : string :=
  "No content string returned from {self.kwargs_llm['client']}".

Definition pretty_message (m : Message) : string :=
  "[black on bright_yellow](" +:+ role m +:+ ")" +:+ "[/black on bright_yellow] " +:+ msg_content m.

Definition pretty_kws (kw : Kwargs) : string :=
  if PySeq.truthy kw
  then " with " +:+ PyStr.join ", " (map (fun '(key, val) => key +:+ "=" +:+ val) kw)
  else EmptyString.

Definition calling_msg (self : t) (messages : list Message) : string :=
  "Calling LLM " +:+ model self +:+ pretty_kws (kwargs_llm self) +:+ ":" +:+ PyStr.nl
  +:+ PyStr.join PyStr.nl (map pretty_message messages).

Definition response_msg (body : string) : string :=
  "Response from LLM:" +:+ PyStr.nl +:+ "[black on white]" +:+ body +:+ "[/black on white]".

(** The clean-up of the returned content. *)
Definition clean_up (self : t) (choice : Choice) (content : string) : string :=
  let content :=
    if String.eqb (finish_reason choice) "length" then content +:+ " ..." else content in
  let speaker := name self +:+ ": " in
  if PyStr.startswith content speaker
  then PyStr.slice_from (String.length speaker) content
  else content.

Section Response.

(** [dialogue_to_openai] of [agents.py], which is not among the sources:
    it turns the dialogue into the message sequence for the speaker and
    the format options, or raises. *)
Variable dialogue_to_openai : Dialogue -> string -> Kwargs -> Outcome (list Message).

Definition call_dialogue_to_openai (d : ref) (speaker : string) (kw : Kwargs)
  : Prog (list Message) :=
  if kw_clash ["speaker"] kw then Raise TypeError
  else turns ← trigger (Load d); lift_outcome (dialogue_to_openai turns speaker kw).

Definition chat_completions_create (c : Client) (messages : list Message)
    (model : string) (kw : Kwargs) : Prog Completion :=
  if kw_clash ["messages"; "model"] kw then Raise TypeError
  else trigger (Emit (CallChatCreate messages model kw));;
       lift_outcome (c messages model kw).

Definition response (self : t) (d : ref) (kialo : Kialo.t) (kwargs : Kwargs)
  : Prog string :=
  messages ← call_dialogue_to_openai d (name self) (kwargs_format self);
  log_info (calling_msg self messages);;
  response ← chat_completions_create (client self) messages (model self)
               (dict_or (kwargs_llm self) kwargs);
  log_debug (response_msg (completion_repr response));;
  choice ← getitem (choices response) 0;
  match message_content choice with
  | None => Raise (ValueError no_content_msg)
  | Some content =>
      let content := clean_up self choice content in
      level ← trigger GetEffectiveLevel;
      (if DEBUG <? level then log_info (response_msg content) else Ret tt);;
      mret content
  end.

End Response.

End RAG_Agent.

(** ** The steps after the query *)

(** Both agents go on in the same way once the query [q] is built: the
    lookup, the assertion, the two choices and the log line in between. *)
Definition reply_to (kialo : Kialo.t) (q : string) : Prog string :=
  neighbors ← Kialo.closest_claims kialo q (Some 3) "has_cons";
  py_assert (PySeq.truthy neighbors) KialoAgent.no_claims_msg;;
  neighbor ← random_choice neighbors;
  log_info (KialoAgent.chose_msg neighbor);;
  claim ← random_choice (Kialo.cons kialo neighbor);
  mret claim.

(** The state after the lookup, and after the log line for [neighbor]. *)
Definition after_lookup (s : State) (q : string) : State :=
  add_call s (CallClosestClaims q (Some 3) "has_cons").

Definition after_choice (s : State) (q : string) (neighbor : Claim) : State :=
  add_call (after_lookup s q) (CallLog INFO (KialoAgent.chose_msg neighbor)).

(** What [random.choice(l)] returns from the tape. *)
Definition choose {A} (l : list A) (g : Rng) : Outcome A * Rng :=
  match l with
  | [] => (Exc IndexError, g)
  | _ :: _ =>
      let '(i, g') := randbelow (length l) g in
      (match l !! i with
       | Some x => Ok x
       | None => Exc IndexError
       end, g')
  end.

(** ** The query policies in the words of the specification *)

(** Policy A: just the last turn's content. *)
Definition policy_A (turns : Dialogue) : option string :=
  content <$> last turns.

(** Policy B: every turn's content in order, the content of turn [i]
    repeated [i+1] times, the pieces joined with [";"]. *)
Definition policy_B (turns : Dialogue) : string :=
  PyStr.join ";" (imap (fun i turn => PyStr.repeat (content turn) (i + 1)) turns).

(** The value of the Python expression [l[0]]. *)
Definition first_item {A} (l : list A) : Outcome A :=
  match l with
  | x :: _ => Ok x
  | [] => Exc IndexError
  end.

(** ** Sample objects *)

Module Sample.

(** A graph with the claim ["C1"] and its cons ["C1a"] and ["C1b"], whose
    lookup resolves every query to [["C1"]]. *)
Definition kialo_C1 : Kialo.t :=
  Kialo.mk (fun _ _ _ => ["C1"])
           (RDraw 2 (fun i => RDone (if Nat.eqb i 0 then ["C1"] else ["C1"; "C1a"])))
           ∅
           {[ "C1" := ["C1a"; "C1b"] ]}.

(** A graph in which no claim qualifies for any lookup. *)
Definition kialo_sparse : Kialo.t :=
  Kialo.mk (fun _ _ _ => []) (RDone ["C0"]) ∅ ∅.

Definition one_turn : Dialogue := [mkTurn "Darius" "Vegetarianism is healthy."].

Definition three_turns : Dialogue :=
  [mkTurn "Darius" "a"; mkTurn "Akiki" "b"; mkTurn "Darius" "c"].

Definition state_of (turns : Dialogue) : State :=
  mkState (fun _ => turns) INFO [].

Definition rng : Rng := mkRng (fun i => i) 0.

(** A formatter in the manner of [dialogue_to_openai]: one message per
    turn, the speaker's own turns in the assistant role. *)
Definition to_messages (turns : Dialogue) (speaker_name : string) (kw : Kwargs)
  : Outcome (list Message) :=
  Ok (map (fun turn =>
             mkMessage (if String.eqb (speaker turn) speaker_name then "assistant" else "user")
                       (content turn))
          turns).

(** A client that answers every request with one choice. *)
Definition client_of (c : Choice) : RAG_Agent.Client :=
  fun _ _ _ => Ok (mkCompletion [c] "ChatCompletion(...)").

Definition alice (c : Choice) : RAG_Agent.t :=
  RAG_Agent.mk "Alice" "gpt-3.5-turbo-1106" [] [("temperature", "0.7")] (client_of c).

End Sample.

(** ** What a run draws, requests and logs *)

(** The generator a run leaves behind. *)
Definition rng_after {A} (o : Outcome A * Rng * State) : Rng := snd (fst o).

(** No path of the program reaches a draw. *)
Fixpoint draw_free {A} (p : Prog A) : Prop :=
  match p with
  | Ret _ => True
  | Raise _ => True
  | Vis ev k => draw_bound ev = None /\ forall x, draw_free (k x)
  end.

Definition is_chat_call (c : Call) : bool :=
  match c with
  | CallChatCreate _ _ _ => true
  | _ => false
  end.

Definition is_random_chain (c : Call) : bool :=
  match c with
  | CallRandomChain => true
  | _ => false
  end.

(** A log call with the body of a response, whatever its level. *)
Definition is_response_line (c : Call) : bool :=
  match c with
  | CallLog _ msg => String.prefix "Response from LLM:" msg
  | _ => false
  end.

(** [Logger.isEnabledFor]: a log call reaches the handlers when its level
    is at least the effective level of the logger. *)
Definition emitted (effective : nat) (c : Call) : bool :=
  match c with
  | CallLog level _ => effective <=? level
  | _ => false
  end.

(** A header and one bullet line for each item; nothing for no items. *)
Definition bullet_block (header : string) (items : list string) : string :=
  match items with
  | [] => EmptyString
  | _ :: _ =>
      PyStr.nl +:+ header
      +:+ String.concat EmptyString (map (fun item => bullet_sep +:+ item) items)
  end.

(** The length of the query of [KialoAgent2] for the contents of the
    turns: [i+1] copies of turn [i] and a separator between turns. *)
Definition policy_B_length (turns : Dialogue) : nat :=
  sum_list (imap (fun i turn => (i + 1) * String.length (content turn)) turns)
  + (length turns - 1).

Module MoreSamples.


(** A graph with pros and cons for the claim its lookup returns. *)
Definition kialo_both : Kialo.t :=
  Kialo.mk (fun _ _ _ => ["C3"; "C4"]) (RDone ["C3"])
           {[ "C3" := ["C3p"; "C3q"] ]}
           {[ "C3" := ["C3a"]; "C4" := ["C4a"; "C4b"] ]}.

Definition two_turns : Dialogue := [mkTurn "Darius" "ab"; mkTurn "Akiki" "c"].

(** A client that is out of reach. *)
Definition client_down : RAG_Agent.Client :=
  fun _ _ _ => Exc (APIError "Connection error.").

(** A client whose completion has no choices. *)
Definition client_no_choice : RAG_Agent.Client :=
  fun _ _ _ => Ok (mkCompletion [] "ChatCompletion(choices=[])").

Definition bob (c : RAG_Agent.Client) : RAG_Agent.t :=
  RAG_Agent.mk "Bob" "gpt-4o-mini" [] [("temperature", "0.7"); ("max_tokens", "50")] c.

End MoreSamples.

(** * Properties *)

(** ** The interpreters *)

Ltac prog_unfold := unfold mbind, Prog_bind, mret, Prog_ret, trigger in *.

Section Interpreters.

Context {A B : Type}.

Lemma run_bind (p : Prog A) (f : A -> Prog B) g s :
  run (pbind p f) g s =
  match run p g s with
  | (Ok a, g', s') => run (f a) g' s'
  | (Exc e, g', s') => (Exc e, g', s')
  end.
Proof.
  revert g s. induction p as [a | e | X ev k IH]; intros g s; simpl; try reflexivity.
  destruct (draw_bound ev) as [n |].
  - destruct (randbelow n g) as [r g']. destruct (handle ev r s) as [x s']. apply IH.
  - destruct (handle ev 0 s) as [x s']. apply IH.
Qed.

End Interpreters.

Lemma handle_calls {X} (ev : Event X) r s :
  exists l, calls (snd (handle ev r s)) = calls s ++ l.
Proof.
  destruct ev; simpl; try (exists []; symmetry; apply app_nil_r).
  exists [c]. reflexivity.
Qed.

Lemma run_calls {A} (p : Prog A) g s :
  exists l, calls (final (run p g s)) = calls s ++ l.
Proof.
  revert g s. induction p as [a | e | X ev k IH]; intros g s; simpl;
    try (exists []; symmetry; apply app_nil_r).
  destruct (match draw_bound ev with Some n => randbelow n g | None => (0, g) end) as [r g'].
  destruct (handle_calls ev r s) as [l1 Hl1].
  destruct (handle ev r s) as [x s']. simpl in Hl1.
  destruct (IH x g' s') as [l2 Hl2].
  exists (l1 ++ l2). rewrite Hl2, Hl1. symmetry. apply app_assoc.
Qed.

Lemma new_calls_app {A} (o : Outcome A * Rng * State) s l :
  calls (final o) = calls s ++ l -> new_calls o s = l.
Proof. unfold new_calls. intros ->. apply drop_app_length. Qed.

(** *** The two interpreters agree *)

Lemma in_support_dbind {A B} (m : Dist A) (f : A -> Dist B) a b :
  In a (support m) -> In b (support (f a)) -> In b (support (dbind m f)).
Proof.
  unfold support, dbind. rewrite !in_map_iff.
  intros [[w a'] [Ha Hin]] [[w' b'] [Hb Hin']]. cbn [snd] in Ha, Hb. subst a' b'.
  exists (Qmult w w', b). split; [reflexivity |].
  apply in_flat_map. exists (w, a). split; [exact Hin |].
  apply in_map_iff. exists (w', b). auto.
Qed.

Lemma in_support_uniform {A} (l : list A) a : In a l -> In a (support (uniform l)).
Proof.
  unfold support, uniform. rewrite map_map. cbn [snd]. rewrite map_id. auto.
Qed.

Lemma randbelow_in_draws n g : In (fst (randbelow n g)) (draws n).
Proof.
  destruct n as [| n]; unfold randbelow, draws; cbn [fst]; [left; reflexivity |].
  apply List.in_seq.
  pose proof (Nat.mod_upper_bound (tape g (pos g)) (S n)) as Hlt. lia.
Qed.

(** Whatever the tape holds, the result of a run and its final state are
    among the outcomes that the distribution lists. *)
Lemma run_in_dist {A} (p : Prog A) g s :
  In (result (run p g s), final (run p g s)) (support (dist p s)).
Proof.
  revert g s. induction p as [a | e | X ev k IH]; intros g s;
    [left; reflexivity | left; reflexivity |].
  cbn [run dist]. destruct (draw_bound ev) as [n |].
  - pose proof (randbelow_in_draws n g) as Hr.
    destruct (randbelow n g) as [r g']. cbn [fst] in Hr.
    apply in_support_dbind with (a := r); [apply in_support_uniform, Hr |].
    destruct (handle ev r s) as [x s']. apply IH.
  - destruct (handle ev 0 s) as [x s']. apply IH.
Qed.

(** ** Programs without [Append] keep every dialogue *)

Lemma handle_heap {X} (ev : Event X) r s :
  is_append ev = false -> heap (snd (handle ev r s)) = heap s.
Proof. destruct ev; simpl; intros H; try reflexivity. discriminate. Qed.

Lemma read_only_run {A} (p : Prog A) g s :
  read_only p -> heap (final (run p g s)) = heap s.
Proof.
  revert g s. induction p as [a | e | X ev k IH]; intros g s; simpl; try reflexivity.
  intros [Hev Hk].
  destruct (match draw_bound ev with Some n => randbelow n g | None => (0, g) end) as [r g'].
  pose proof (handle_heap ev r s Hev) as Hh.
  destruct (handle ev r s) as [x s']. simpl in Hh.
  rewrite <- Hh. apply IH, Hk.
Qed.

Lemma read_only_bind {A B} (p : Prog A) (f : A -> Prog B) :
  read_only p -> (forall a, read_only (f a)) -> read_only (pbind p f).
Proof.
  intros Hp Hf. induction p as [a | e | X ev k IH]; simpl; auto.
  destruct Hp as [Hev Hk]. split; auto.
Qed.

Lemma read_only_lift_rand {A} (t : Rand A) : read_only (lift_rand t).
Proof. induction t as [a | n k IH]; simpl; auto. Qed.

Lemma read_only_getitem {A} (l : list A) i : read_only (getitem l i).
Proof.
  unfold getitem. destruct (PySeq.norm_index _ _); simpl; auto.
  destruct (l !! n); simpl; auto.
Qed.

Lemma read_only_random_choice {A} (l : list A) : read_only (random_choice l).
Proof.
  unfold random_choice. destruct (PySeq.truthy l); simpl; auto.
  split; auto. intros x. apply read_only_getitem.
Qed.

Lemma read_only_lift_outcome {A} (o : Outcome A) : read_only (lift_outcome o).
Proof. destruct o; simpl; auto. Qed.

Lemma read_only_mapM {A B} (f : A -> Prog B) (l : list A) :
  (forall a, read_only (f a)) -> read_only (mapM f l).
Proof.
  intros Hf. induction l as [| a l IH]; simpl; auto.
  prog_unfold. apply read_only_bind; auto.
  intros b. apply read_only_bind; auto. intros bs. simpl. auto.
Qed.

Lemma read_only_KialoAgent self d : read_only (KialoAgent.response self d).
Proof.
  unfold KialoAgent.response, KialoAgent.previous_turn, len, getturn,
    Kialo.random_chain, Kialo.closest_claims, py_assert, log_info.
  prog_unfold. simpl. split; [reflexivity |]. intros turns.
  destruct (length turns =? 0); simpl.
  - split; [reflexivity |]. intros _.
    apply read_only_bind; [apply read_only_lift_rand |].
    intros chain. apply read_only_bind; [apply read_only_getitem | simpl; auto].
  - split; [reflexivity |]. intros turns'.
    apply read_only_bind; [apply read_only_bind; [apply read_only_getitem | simpl; auto] |].
    intros q. simpl. split; [reflexivity |]. intros _.
    destruct (PySeq.truthy _); simpl; auto.
    apply read_only_bind; [apply read_only_random_choice |].
    intros nb. simpl. split; [reflexivity |]. intros _.
    apply read_only_bind; [apply read_only_random_choice | simpl; auto].
Qed.

Lemma read_only_previous_turn2 d : read_only (KialoAgent2.previous_turn d).
Proof.
  unfold KialoAgent2.previous_turn, len, getturn. prog_unfold. simpl.
  split; [reflexivity |]. intros turns.
  apply read_only_bind; [| simpl; auto].
  apply read_only_mapM. intros i. simpl. split; [reflexivity |]. intros turns'.
  apply read_only_bind; [apply read_only_getitem | simpl; auto].
Qed.

Lemma read_only_KialoAgent2 self d : read_only (KialoAgent2.response self d).
Proof.
  unfold KialoAgent2.response. prog_unfold.
  apply read_only_bind.
  { unfold len. prog_unfold. simpl. auto. }
  intros n. destruct (n =? 0).
  - apply read_only_bind.
    { unfold Kialo.random_chain. prog_unfold. simpl. split; [reflexivity |].
      intros _. apply read_only_lift_rand. }
    intros chain. apply read_only_bind; [apply read_only_getitem | simpl; auto].
  - apply read_only_bind; [apply read_only_previous_turn2 |].
    intros q. unfold Kialo.closest_claims, py_assert, log_info. prog_unfold. simpl.
    split; [reflexivity |]. intros _.
    destruct (PySeq.truthy _); simpl; auto.
    apply read_only_bind; [apply read_only_random_choice |].
    intros nb. simpl. split; [reflexivity |]. intros _.
    apply read_only_bind; [apply read_only_random_choice | simpl; auto].
Qed.

Lemma read_only_RAG_Agent dto self d kialo kwargs :
  read_only (RAG_Agent.response dto self d kialo kwargs).
Proof.
  unfold RAG_Agent.response, RAG_Agent.call_dialogue_to_openai,
    RAG_Agent.chat_completions_create, log_info, log_debug.
  prog_unfold.
  apply read_only_bind.
  { destruct (kw_clash _ _); simpl; auto. split; [reflexivity |].
    intros turns. apply read_only_lift_outcome. }
  intros messages. simpl. split; [reflexivity |]. intros _.
  apply read_only_bind.
  { destruct (kw_clash _ _); simpl; auto. split; [reflexivity |].
    intros _. apply read_only_lift_outcome. }
  intros resp. simpl. split; [reflexivity |]. intros _.
  apply read_only_bind; [apply read_only_getitem |].
  intros choice. destruct (message_content choice); simpl; auto.
  split; [reflexivity |]. intros level.
  apply read_only_bind; [| simpl; auto].
  destruct (DEBUG <? level); simpl; auto.
Qed.

(** C8.  [response] leaves the dialogue it is given as it was: after a
    run of [KialoAgent.response], of [KialoAgent2.response] or of
    [RAG_Agent.response], from any generator and any state, the store
    holds the same dialogues as before, the one passed as [d] among them. *)
Theorem response_keeps_dialogue
    (a1 : KialoAgent.t) (a2 : KialoAgent2.t)
    (dto : Dialogue -> string -> Kwargs -> Outcome (list Message))
    (a3 : RAG_Agent.t) (kialo : Kialo.t) (kwargs : Kwargs)
    (d : ref) (g : Rng) (s : State) :
  heap (final (run (KialoAgent.response a1 d) g s)) d = heap s d
  /\ heap (final (run (KialoAgent2.response a2 d) g s)) d = heap s d
  /\ heap (final (run (RAG_Agent.response dto a3 d kialo kwargs) g s)) d = heap s d.
Proof.
  repeat split.
  - rewrite read_only_run; [reflexivity | apply read_only_KialoAgent].
  - rewrite read_only_run; [reflexivity | apply read_only_KialoAgent2].
  - rewrite read_only_run; [reflexivity | apply read_only_RAG_Agent].
Qed.

(** ** Running the building blocks *)

Lemma run_lift_rand {A} (t : Rand A) g s :
  run (lift_rand t) g s = (Ok (fst (sample t g)), snd (sample t g), s).
Proof.
  revert g. induction t as [a | n k IH]; intros g; [reflexivity |].
  cbn [lift_rand run sample draw_bound handle].
  destruct (randbelow n g) as [r g']. apply IH.
Qed.

Lemma sample_out {A} (t : Rand A) g : Rand_out t (fst (sample t g)).
Proof.
  revert g. induction t as [a | n k IH]; intros g; cbn [sample]; [constructor |].
  pose proof (randbelow_in_draws n g) as Hin.
  destruct (randbelow n g) as [r g']. apply Rand_out_draw with (r := r); [exact Hin | apply IH].
Qed.

Lemma run_random_chain (k : Kialo.t) g s :
  run (Kialo.random_chain k) g s =
  (Ok (fst (sample (Kialo.random_chain_fn k) g)),
   snd (sample (Kialo.random_chain_fn k) g),
   add_call s CallRandomChain).
Proof. unfold Kialo.random_chain. prog_unfold. simpl. apply run_lift_rand. Qed.

Lemma run_getitem_0 {A} (l : list A) g s :
  run (getitem l 0) g s = (first_item l, g, s).
Proof. destruct l; reflexivity. Qed.

Lemma first_item_bind {A} (l : list A) g s :
  run (pbind (getitem l 0) Ret) g s = (first_item l, g, s).
Proof. rewrite run_bind, run_getitem_0. destruct l; reflexivity. Qed.

Lemma run_len d g s : run (len d) g s = (Ok (length (heap s d)), g, s).
Proof. reflexivity. Qed.

Lemma run_emit c g s : run (trigger (Emit c)) g s = (Ok tt, g, add_call s c).
Proof. reflexivity. Qed.

(** ** The first turn *)

Lemma run_KialoAgent_empty self d g s :
  length (heap s d) = 0 ->
  run (KialoAgent.response self d) g s =
  (first_item (fst (sample (Kialo.random_chain_fn (KialoAgent.kialo self)) g)),
   snd (sample (Kialo.random_chain_fn (KialoAgent.kialo self)) g),
   add_call s CallRandomChain).
Proof.
  intros Hlen. unfold KialoAgent.response. prog_unfold.
  rewrite run_bind, run_len, Hlen. cbn [Nat.eqb].
  rewrite run_bind, run_random_chain. apply first_item_bind.
Qed.

Lemma run_KialoAgent2_empty self d g s :
  length (heap s d) = 0 ->
  run (KialoAgent2.response self d) g s =
  (first_item (fst (sample (Kialo.random_chain_fn (KialoAgent2.kialo self)) g)),
   snd (sample (Kialo.random_chain_fn (KialoAgent2.kialo self)) g),
   add_call s CallRandomChain).
Proof.
  intros Hlen. unfold KialoAgent2.response. prog_unfold.
  rewrite run_bind, run_len, Hlen. cbn [Nat.eqb].
  rewrite run_bind, run_random_chain. apply first_item_bind.
Qed.

(** C2.  On an empty dialogue the reply of [KialoAgent] and of
    [KialoAgent2] is [chain[0]] for a chain that [random_chain()] of the
    agent's graph can return, and the only call made is that
    [random_chain()]: [closest_claims] is not called. *)
Theorem empty_dialogue_starts_random_chain
    (kialo : Kialo.t) (n1 n2 : string) (d : ref) (g : Rng) (s : State) :
  length (heap s d) = 0 ->
  let o1 := run (KialoAgent.response (KialoAgent.mk n1 kialo) d) g s in
  let o2 := run (KialoAgent2.response (KialoAgent2.mk n2 kialo) d) g s in
  exists chain,
    Rand_out (Kialo.random_chain_fn kialo) chain
    /\ result o1 = first_item chain
    /\ result o2 = first_item chain
    /\ new_calls o1 s = [CallRandomChain]
    /\ new_calls o2 s = [CallRandomChain]
    /\ existsb is_closest_claims (new_calls o1 s ++ new_calls o2 s) = false.
Proof.
  intros Hlen o1 o2.
  exists (fst (sample (Kialo.random_chain_fn kialo) g)).
  assert (H1 : new_calls o1 s = [CallRandomChain]).
  { apply new_calls_app. unfold o1. rewrite run_KialoAgent_empty by exact Hlen. reflexivity. }
  assert (H2 : new_calls o2 s = [CallRandomChain]).
  { apply new_calls_app. unfold o2. rewrite run_KialoAgent2_empty by exact Hlen. reflexivity. }
  split; [apply sample_out |].
  split; [unfold o1; rewrite run_KialoAgent_empty by exact Hlen; reflexivity |].
  split; [unfold o2; rewrite run_KialoAgent2_empty by exact Hlen; reflexivity |].
  split; [exact H1 |]. split; [exact H2 |].
  rewrite H1, H2. reflexivity.
Qed.

Lemma empty_dialogue_starts_random_chain_witness :
  exists chain,
    Rand_out (Kialo.random_chain_fn Sample.kialo_C1) chain
    /\ result (run (KialoAgent.response (KialoAgent.mk "Akiko" Sample.kialo_C1) 0)
                 Sample.rng (Sample.state_of [])) = first_item chain
    /\ result (run (KialoAgent2.response (KialoAgent2.mk "Akiki" Sample.kialo_C1) 0)
                 Sample.rng (Sample.state_of [])) = first_item chain
    /\ new_calls (run (KialoAgent.response (KialoAgent.mk "Akiko" Sample.kialo_C1) 0)
                    Sample.rng (Sample.state_of [])) (Sample.state_of [])
       = [CallRandomChain]
    /\ new_calls (run (KialoAgent2.response (KialoAgent2.mk "Akiki" Sample.kialo_C1) 0)
                    Sample.rng (Sample.state_of [])) (Sample.state_of [])
       = [CallRandomChain]
    /\ existsb is_closest_claims
         (new_calls (run (KialoAgent.response (KialoAgent.mk "Akiko" Sample.kialo_C1) 0)
                      Sample.rng (Sample.state_of [])) (Sample.state_of [])
          ++ new_calls (run (KialoAgent2.response (KialoAgent2.mk "Akiki" Sample.kialo_C1) 0)
                         Sample.rng (Sample.state_of [])) (Sample.state_of []))
       = false.
Proof.
  apply (empty_dialogue_starts_random_chain Sample.kialo_C1 "Akiko" "Akiki" 0
           Sample.rng (Sample.state_of [])).
  reflexivity.
Defined.

(** ** Later turns *)

Lemma KialoAgent_response_unfold self d :
  KialoAgent.response self d =
  pbind (len d) (fun n =>
    if n =? 0
    then pbind (Kialo.random_chain (KialoAgent.kialo self)) (fun chain => pbind (getitem chain 0) Ret)
    else pbind (KialoAgent.previous_turn d) (reply_to (KialoAgent.kialo self))).
Proof. reflexivity. Qed.

Lemma KialoAgent2_response_unfold self d :
  KialoAgent2.response self d =
  pbind (len d) (fun n =>
    if n =? 0
    then pbind (Kialo.random_chain (KialoAgent2.kialo self)) (fun chain => pbind (getitem chain 0) Ret)
    else pbind (KialoAgent2.previous_turn d) (reply_to (KialoAgent2.kialo self))).
Proof. reflexivity. Qed.

Lemma getitem_nat {A} (l : list A) (i : nat) :
  getitem l (Z.of_nat i) =
  match l !! i with
  | Some x => Ret x
  | None => Raise IndexError
  end.
Proof.
  unfold getitem, PySeq.norm_index.
  destruct (Z.ltb_spec (Z.of_nat i) 0) as [Hneg | _]; [lia |].
  destruct (Z.leb_spec 0 (Z.of_nat i)) as [_ | Hneg]; [| lia].
  destruct (Z.ltb_spec (Z.of_nat i) (Z.of_nat (length l))) as [Hlt | Hge]; cbn [andb].
  - rewrite Nat2Z.id. reflexivity.
  - rewrite (lookup_ge_None_2 l i) by lia. reflexivity.
Qed.

Lemma getitem_last {A} (l : list A) :
  getitem l (-1) =
  match last l with
  | Some x => Ret x
  | None => Raise IndexError
  end.
Proof.
  destruct l as [| a l] using rev_ind; [reflexivity |].
  rewrite last_snoc. unfold getitem, PySeq.norm_index. rewrite length_app. cbn [length].
  assert (Hi : (-1 + Z.of_nat (length l + 1))%Z = Z.of_nat (length l)) by lia.
  cbn [Z.ltb Z.compare]. rewrite Hi.
  destruct (Z.leb_spec 0 (Z.of_nat (length l))) as [_ | Hneg]; [| lia].
  destruct (Z.ltb_spec (Z.of_nat (length l)) (Z.of_nat (length l + 1))) as [_ | Hge]; [| lia].
  cbn [andb]. rewrite Nat2Z.id, lookup_app_r by lia.
  rewrite Nat.sub_diag. reflexivity.
Qed.

Lemma run_getturn_last d g s :
  run (getturn d (-1)) g s =
  (match last (heap s d) with
   | Some turn => Ok turn
   | None => Exc IndexError
   end, g, s).
Proof.
  unfold getturn. prog_unfold. cbn [pbind run draw_bound handle].
  rewrite getitem_last. destruct (last (heap s d)); reflexivity.
Qed.

Lemma run_previous_turn d g s turn :
  last (heap s d) = Some turn ->
  run (KialoAgent.previous_turn d) g s = (Ok (content turn), g, s).
Proof.
  intros Hlast. unfold KialoAgent.previous_turn. prog_unfold.
  rewrite run_bind, run_getturn_last, Hlast. reflexivity.
Qed.

Lemma run_closest_claims kialo q n kind g s :
  run (Kialo.closest_claims kialo q n kind) g s =
  (Ok (Kialo.closest_claims_fn kialo q n kind), g, add_call s (CallClosestClaims q n kind)).
Proof. reflexivity. Qed.

Lemma run_random_choice {A} (l : list A) g s :
  run (random_choice l) g s = (fst (choose l g), snd (choose l g), s).
Proof.
  destruct l as [| a l]; [reflexivity |].
  unfold random_choice, choose. prog_unfold. cbn [PySeq.truthy pbind run draw_bound handle].
  destruct (randbelow (length (a :: l)) g) as [i g'].
  rewrite getitem_nat. cbn [fst snd]. destruct ((a :: l) !! i); reflexivity.
Qed.

Lemma choose_nonempty {A} (l : list A) g :
  l <> [] ->
  exists i x, l !! i = Some x /\ choose l g = (Ok x, snd (randbelow (length l) g)).
Proof.
  intros Hne. destruct l as [| a l]; [congruence |].
  unfold choose. pose proof (randbelow_in_draws (length (a :: l)) g) as Hin.
  destruct (randbelow (length (a :: l)) g) as [i g']. cbn [fst snd] in *.
  apply List.in_seq in Hin.
  destruct (lookup_lt_is_Some_2 (a :: l) i) as [x Hx]; [lia |].
  exists i, x. rewrite Hx. auto.
Qed.

Lemma run_reply_empty kialo q g s :
  Kialo.closest_claims_fn kialo q (Some 3) "has_cons" = [] ->
  run (reply_to kialo q) g s =
  (Exc (AssertionError KialoAgent.no_claims_msg), g, after_lookup s q).
Proof.
  intros Hnone. unfold reply_to. prog_unfold.
  rewrite run_bind, run_closest_claims, Hnone. reflexivity.
Qed.

Lemma run_reply_nonempty kialo q g s :
  Kialo.closest_claims_fn kialo q (Some 3) "has_cons" <> [] ->
  exists i neighbor,
    Kialo.closest_claims_fn kialo q (Some 3) "has_cons" !! i = Some neighbor
    /\ run (reply_to kialo q) g s =
       (let g1 := snd (randbelow (length (Kialo.closest_claims_fn kialo q (Some 3) "has_cons")) g) in
        (fst (choose (Kialo.cons kialo neighbor) g1),
         snd (choose (Kialo.cons kialo neighbor) g1),
         after_choice s q neighbor)).
Proof.
  intros Hsome. destruct (choose_nonempty _ g Hsome) as (i & neighbor & Hi & Hch).
  exists i, neighbor. split; [exact Hi |].
  unfold reply_to. prog_unfold.
  rewrite run_bind, run_closest_claims.
  destruct (Kialo.closest_claims_fn kialo q (Some 3) "has_cons") as [| c cs] eqn:Hnbs;
    [congruence |].
  cbn [PySeq.truthy py_assert pbind].
  rewrite run_bind, run_random_choice, Hch. cbn [fst snd].
  unfold log_info. prog_unfold. cbn [pbind run draw_bound handle].
  rewrite run_bind, run_random_choice.
  destruct (choose (Kialo.cons kialo neighbor) _) as [[x | e] g2]; reflexivity.
Qed.

(** The reply never fails with an assertion once the lookup found
    something, whatever the second choice does. *)
Lemma choose_not_assertion {A} (l : list A) g msg :
  fst (choose l g) <> Exc (AssertionError msg).
Proof.
  destruct l as [| a l]; cbn [choose fst]; [discriminate |].
  destruct (randbelow _ g) as [i g']. cbn [fst].
  destruct ((a :: l) !! i); discriminate.
Qed.

Lemma reply_assertion_iff kialo q g s :
  (exists msg, result (run (reply_to kialo q) g s) = Exc (AssertionError msg))
  <-> Kialo.closest_claims_fn kialo q (Some 3) "has_cons" = [].
Proof.
  destruct (Kialo.closest_claims_fn kialo q (Some 3) "has_cons") as [| c cs] eqn:Hnbs.
  - rewrite run_reply_empty by exact Hnbs. split; [reflexivity |].
    intros _. eexists. reflexivity.
  - destruct (run_reply_nonempty kialo q g s) as (i & nb & _ & Hrun); [congruence |].
    rewrite Hrun. cbn [result fst]. split; [| discriminate].
    intros [msg Hmsg]. exfalso. exact (choose_not_assertion _ _ _ Hmsg).
Qed.

(** *** The query of [KialoAgent2] *)

Lemma string_app_nil_r (s : string) : s +:+ EmptyString = s.
Proof.
  induction s as [| a s IH]; [reflexivity |].
  change (String a (s +:+ EmptyString) = String a s). f_equal. exact IH.
Qed.

Lemma run_repeated_contents d g s (pre suf : Dialogue) :
  heap s d = pre ++ suf ->
  run (mapM (fun i => pbind (getturn d (Z.of_nat i))
                        (fun turn => Ret (PyStr.repeat (content turn) (i + 1))))
            (seq (length pre) (length suf))) g s =
  (Ok (imap (fun j turn => PyStr.repeat (content turn) (length pre + j + 1)) suf), g, s).
Proof.
  revert pre. induction suf as [| x suf IH]; intros pre Hheap; [reflexivity |].
  cbn [length seq mapM]. prog_unfold.
  rewrite run_bind, run_bind.
  unfold getturn at 1. prog_unfold. cbn [pbind run draw_bound handle].
  rewrite getitem_nat, Hheap.
  rewrite (lookup_app_r pre (x :: suf) (length pre)) by reflexivity.
  rewrite Nat.sub_diag.
  cbn [lookup list_lookup run].
  rewrite run_bind.
  specialize (IH (pre ++ [x])). rewrite length_app in IH. cbn [length] in IH.
  replace (length pre + 1) with (S (length pre)) in IH by lia.
  rewrite IH by (rewrite <- app_assoc; exact Hheap).
  cbn [run imap]. rewrite Nat.add_0_r. do 4 f_equal.
  apply imap_ext. intros j y _. unfold compose. f_equal. lia.
Qed.

Lemma run_previous_turn2 d g s :
  run (KialoAgent2.previous_turn d) g s = (Ok (policy_B (heap s d)), g, s).
Proof.
  pose proof (run_repeated_contents d g s [] (heap s d) eq_refl) as Hparts.
  cbn [length] in Hparts.
  unfold KialoAgent2.previous_turn, PySeq.range. prog_unfold.
  rewrite run_bind, run_len, run_bind, Hparts. reflexivity.
Qed.

Lemma last_Some_length {A} (l : list A) x : last l = Some x -> (length l =? 0) = false.
Proof. destruct l; [discriminate | reflexivity]. Qed.

Lemma run_KialoAgent_later self d g s turn :
  last (heap s d) = Some turn ->
  run (KialoAgent.response self d) g s =
  run (reply_to (KialoAgent.kialo self) (content turn)) g s.
Proof.
  intros Hlast. rewrite KialoAgent_response_unfold, run_bind, run_len.
  rewrite (last_Some_length _ _ Hlast).
  rewrite run_bind, (run_previous_turn d g s turn Hlast). reflexivity.
Qed.

Lemma run_KialoAgent2_later self d g s :
  length (heap s d) <> 0 ->
  run (KialoAgent2.response self d) g s =
  run (reply_to (KialoAgent2.kialo self) (policy_B (heap s d))) g s.
Proof.
  intros Hlen. rewrite KialoAgent2_response_unfold, run_bind, run_len.
  destruct (Nat.eqb_spec (length (heap s d)) 0) as [Heq | _]; [contradiction |].
  rewrite run_bind, run_previous_turn2. reflexivity.
Qed.

Lemma reply_calls kialo q g s :
  exists rest,
    new_calls (run (reply_to kialo q) g s) s = CallClosestClaims q (Some 3) "has_cons" :: rest
    /\ existsb is_closest_claims rest = false.
Proof.
  destruct (Kialo.closest_claims_fn kialo q (Some 3) "has_cons") as [| c cs] eqn:Hnbs.
  - exists []. split; [| reflexivity].
    apply new_calls_app. rewrite run_reply_empty by exact Hnbs. reflexivity.
  - destruct (run_reply_nonempty kialo q g s) as (i & nb & _ & Hrun); [congruence |].
    exists [CallLog INFO (KialoAgent.chose_msg nb)]. split; [| reflexivity].
    apply new_calls_app. rewrite Hrun. cbn [final snd after_choice after_lookup add_call calls].
    rewrite <- app_assoc. reflexivity.
Qed.

(** C3.  On a non-empty dialogue [KialoAgent.response] and
    [KialoAgent2.response] end in an [AssertionError] exactly when
    [closest_claims(query, n=3, kind='has_cons')] returns an empty list,
    the query being the last turn's content for the first agent and the
    repeated contents for the second.  The error is the outcome of the
    call: no string is returned in that case. *)
Theorem assertion_iff_no_neighbors
    (kialo : Kialo.t) (n1 n2 : string) (d : ref) (g : Rng) (s : State) (turn : Turn) :
  last (heap s d) = Some turn ->
  let o1 := run (KialoAgent.response (KialoAgent.mk n1 kialo) d) g s in
  let o2 := run (KialoAgent2.response (KialoAgent2.mk n2 kialo) d) g s in
  ((exists msg, result o1 = Exc (AssertionError msg))
   <-> Kialo.closest_claims_fn kialo (content turn) (Some 3) "has_cons" = [])
  /\ ((exists msg, result o2 = Exc (AssertionError msg))
      <-> Kialo.closest_claims_fn kialo (policy_B (heap s d)) (Some 3) "has_cons" = [])
  /\ (Kialo.closest_claims_fn kialo (content turn) (Some 3) "has_cons" = [] ->
      result o1 = Exc (AssertionError KialoAgent.no_claims_msg))
  /\ (Kialo.closest_claims_fn kialo (policy_B (heap s d)) (Some 3) "has_cons" = [] ->
      result o2 = Exc (AssertionError KialoAgent.no_claims_msg)).
Proof.
  intros Hlast o1 o2.
  assert (Hlen : length (heap s d) <> 0).
  { pose proof (last_Some_length _ _ Hlast) as H. apply Nat.eqb_neq. exact H. }
  unfold o1, o2.
  rewrite (run_KialoAgent_later _ d g s turn Hlast).
  rewrite (run_KialoAgent2_later _ d g s Hlen).
  cbn [KialoAgent.kialo KialoAgent2.kialo].
  split; [apply reply_assertion_iff |].
  split; [apply reply_assertion_iff |].
  split; intros Hnone; rewrite run_reply_empty by exact Hnone; reflexivity.
Qed.

Lemma assertion_iff_no_neighbors_witness :
  ((exists msg, result (run (KialoAgent.response (KialoAgent.mk "Akiko" Sample.kialo_sparse) 0)
                          Sample.rng (Sample.state_of Sample.three_turns))
                = Exc (AssertionError msg))
   <-> Kialo.closest_claims_fn Sample.kialo_sparse "c" (Some 3) "has_cons" = [])
  /\ ((exists msg, result (run (KialoAgent2.response (KialoAgent2.mk "Akiki" Sample.kialo_sparse) 0)
                             Sample.rng (Sample.state_of Sample.three_turns))
                   = Exc (AssertionError msg))
      <-> Kialo.closest_claims_fn Sample.kialo_sparse (policy_B Sample.three_turns)
            (Some 3) "has_cons" = [])
  /\ (Kialo.closest_claims_fn Sample.kialo_sparse "c" (Some 3) "has_cons" = [] ->
      result (run (KialoAgent.response (KialoAgent.mk "Akiko" Sample.kialo_sparse) 0)
                Sample.rng (Sample.state_of Sample.three_turns))
      = Exc (AssertionError KialoAgent.no_claims_msg))
  /\ (Kialo.closest_claims_fn Sample.kialo_sparse (policy_B Sample.three_turns)
        (Some 3) "has_cons" = [] ->
      result (run (KialoAgent2.response (KialoAgent2.mk "Akiki" Sample.kialo_sparse) 0)
                Sample.rng (Sample.state_of Sample.three_turns))
      = Exc (AssertionError KialoAgent.no_claims_msg)).
Proof.
  apply (assertion_iff_no_neighbors Sample.kialo_sparse "Akiko" "Akiki" 0 Sample.rng
           (Sample.state_of Sample.three_turns) (mkTurn "Darius" "c")).
  reflexivity.
Defined.

(** C4.  On a non-empty dialogue the query that [KialoAgent2.response]
    builds and passes to [closest_claims] is policy B: the contents of
    all turns in order, turn [i]'s content repeated [i+1] times, joined
    with [";"].  It is the first call the run makes and its only call
    of [closest_claims]. *)
Theorem KialoAgent2_query_is_policy_B
    (self : KialoAgent2.t) (d : ref) (g : Rng) (s : State) :
  length (heap s d) <> 0 ->
  result (run (KialoAgent2.previous_turn d) g s) = Ok (policy_B (heap s d))
  /\ exists rest,
       new_calls (run (KialoAgent2.response self d) g s) s
       = CallClosestClaims (policy_B (heap s d)) (Some 3) "has_cons" :: rest
       /\ existsb is_closest_claims rest = false.
Proof.
  intros Hlen. split.
  - rewrite run_previous_turn2. reflexivity.
  - rewrite (run_KialoAgent2_later self d g s Hlen). apply reply_calls.
Qed.

Lemma KialoAgent2_query_is_policy_B_witness :
  policy_B Sample.three_turns = "a;bb;ccc"
  /\ result (run (KialoAgent2.previous_turn 0) Sample.rng (Sample.state_of Sample.three_turns))
     = Ok (policy_B Sample.three_turns)
  /\ exists rest,
       new_calls (run (KialoAgent2.response (KialoAgent2.mk "Akiki" Sample.kialo_C1) 0)
                    Sample.rng (Sample.state_of Sample.three_turns))
                 (Sample.state_of Sample.three_turns)
       = CallClosestClaims (policy_B Sample.three_turns) (Some 3) "has_cons" :: rest
       /\ existsb is_closest_claims rest = false.
Proof.
  split; [reflexivity |].
  apply (KialoAgent2_query_is_policy_B (KialoAgent2.mk "Akiki" Sample.kialo_C1) 0
           Sample.rng (Sample.state_of Sample.three_turns)).
  discriminate.
Defined.

(** ** One-turn dialogues *)

Lemma policy_B_one_turn (turn : Turn) : policy_B [turn] = content turn.
Proof.
  unfold policy_B. cbn [imap PyStr.join String.concat Nat.add PyStr.repeat].
  apply string_app_nil_r.
Qed.

Lemma length_one {A} (l : list A) : length l = 1 -> exists x, l = [x].
Proof.
  destruct l as [| x [| y l]]; cbn; intros H; try discriminate. exists x. reflexivity.
Qed.

(** C10.  On a dialogue of exactly one turn the query of [KialoAgent]
    (policy A, the last turn's content) and the query of [KialoAgent2]
    (policy B) are the same string, so that with the same graph and the
    same generator both agents make the same calls and give the same
    reply. *)
Theorem one_turn_queries_agree
    (kialo : Kialo.t) (n1 n2 : string) (d : ref) (g : Rng) (s : State) :
  length (heap s d) = 1 ->
  policy_A (heap s d) = Some (policy_B (heap s d))
  /\ run (KialoAgent.previous_turn d) g s = run (KialoAgent2.previous_turn d) g s
  /\ run (KialoAgent.response (KialoAgent.mk n1 kialo) d) g s
     = run (KialoAgent2.response (KialoAgent2.mk n2 kialo) d) g s.
Proof.
  intros Hlen. destruct (length_one _ Hlen) as [turn Hturn].
  assert (Hlast : last (heap s d) = Some turn) by (rewrite Hturn; reflexivity).
  assert (HB : policy_B (heap s d) = content turn)
    by (rewrite Hturn; apply policy_B_one_turn).
  split; [unfold policy_A; rewrite Hlast, HB; reflexivity |].
  split.
  - rewrite (run_previous_turn d g s turn Hlast), run_previous_turn2, HB. reflexivity.
  - rewrite (run_KialoAgent_later _ d g s turn Hlast).
    rewrite run_KialoAgent2_later by (rewrite Hlen; discriminate).
    rewrite HB. reflexivity.
Qed.

Lemma one_turn_queries_agree_witness :
  policy_A Sample.one_turn = Some (policy_B Sample.one_turn)
  /\ run (KialoAgent.previous_turn 0) Sample.rng (Sample.state_of Sample.one_turn)
     = run (KialoAgent2.previous_turn 0) Sample.rng (Sample.state_of Sample.one_turn)
  /\ run (KialoAgent.response (KialoAgent.mk "Akiko" Sample.kialo_C1) 0)
         Sample.rng (Sample.state_of Sample.one_turn)
     = run (KialoAgent2.response (KialoAgent2.mk "Akiki" Sample.kialo_C1) 0)
         Sample.rng (Sample.state_of Sample.one_turn).
Proof.
  apply (one_turn_queries_agree Sample.kialo_C1 "Akiko" "Akiki" 0 Sample.rng
           (Sample.state_of Sample.one_turn)).
  reflexivity.
Defined.

(** ** The distribution of the reply *)

Lemma dbind_ext_in {A B} (m : Dist A) (f f' : A -> Dist B) :
  (forall w a, In (w, a) m -> f a = f' a) -> dbind m f = dbind m f'.
Proof.
  unfold dbind. induction m as [| [w a] m IH]; intros Hf; [reflexivity |].
  cbn [flat_map]. rewrite (Hf w a) by (left; reflexivity).
  f_equal. apply IH. intros w' a' Hin. apply (Hf w'). right. exact Hin.
Qed.

Lemma dbind_uniform {A B} (l : list A) (f : A -> Dist B) :
  dbind (uniform l) f =
  flat_map (fun a => map (fun '(w', b) => (Qmult (Qmake 1 (Pos.of_nat (length l))) w', b)) (f a)) l.
Proof.
  unfold dbind, uniform. generalize (Qmake 1 (Pos.of_nat (length l))) as w. intros w.
  induction l as [| a l IH]; [reflexivity |].
  cbn [map flat_map]. rewrite IH. reflexivity.
Qed.

Lemma flat_map_seq_lookup {A B} (l : list A) (h : option A -> list B) :
  flat_map (fun i => h (l !! i)) (seq 0 (length l)) = flat_map (fun x => h (Some x)) l.
Proof.
  revert h. induction l as [| a l IH]; intros h; [reflexivity |].
  cbn [length seq flat_map]. f_equal.
  rewrite <- seq_shift, flat_map_concat_map, map_map, <- flat_map_concat_map.
  apply (IH h).
Qed.

Lemma in_uniform {A} (l : list A) w a : In (w, a) (uniform l) -> In a l.
Proof.
  unfold uniform. rewrite in_map_iff. intros [x [Hx Hin]].
  injection Hx as _ <-. exact Hin.
Qed.

(** [random.choice(l)] on a non-empty [l] is uniform over the positions
    of [l]. *)
Lemma dist_random_choice {A B} (l : list A) (f : A -> Prog B) s :
  l <> [] ->
  dist (pbind (random_choice l) f) s = dbind (uniform l) (fun x => dist (f x) s).
Proof.
  intros Hne. destruct l as [| a l]; [congruence |].
  unfold random_choice. prog_unfold. cbn [PySeq.truthy pbind dist draw_bound].
  set (h := fun o : option A =>
              match o with
              | Some x => dist (f x) s
              | None => dret (Exc IndexError, s)
              end).
  rewrite (dbind_ext_in _ _ (fun i => h ((a :: l) !! i))).
  - rewrite !dbind_uniform.
    assert (Hlen : length (draws (length (a :: l))) = length (a :: l))
      by (cbn [draws length]; rewrite length_seq; reflexivity).
    rewrite Hlen. cbn [draws length].
    apply (flat_map_seq_lookup (a :: l)
             (fun o => map (fun '(w', b) => (Qmult (Qmake 1 (Pos.of_nat (length (a :: l)))) w', b))
                         (h o))).
  - intros w i _. cbn [handle]. rewrite getitem_nat. unfold h.
    destruct ((a :: l) !! i); reflexivity.
Qed.

Lemma dist_reply kialo q s :
  Kialo.closest_claims_fn kialo q (Some 3) "has_cons" <> [] ->
  (forall neighbor, In neighbor (Kialo.closest_claims_fn kialo q (Some 3) "has_cons") ->
                    Kialo.cons kialo neighbor <> []) ->
  dist (reply_to kialo q) s =
  dbind (uniform (Kialo.closest_claims_fn kialo q (Some 3) "has_cons"))
    (fun neighbor =>
       dbind (uniform (Kialo.cons kialo neighbor))
         (fun claim => dret (Ok claim, after_choice s q neighbor))).
Proof.
  intros Hsome Hcons. unfold reply_to, Kialo.closest_claims. prog_unfold.
  cbn [pbind dist draw_bound handle].
  destruct (Kialo.closest_claims_fn kialo q (Some 3) "has_cons") as [| c cs] eqn:Hnbs;
    [congruence |].
  cbn [PySeq.truthy py_assert pbind].
  rewrite dist_random_choice by discriminate.
  apply dbind_ext_in. intros w nb Hin. apply in_uniform in Hin.
  unfold log_info. prog_unfold. cbn [pbind dist draw_bound handle].
  rewrite dist_random_choice by (apply Hcons; exact Hin).
  reflexivity.
Qed.

Lemma dist_KialoAgent_later self d s turn :
  last (heap s d) = Some turn ->
  dist (KialoAgent.response self d) s = dist (reply_to (KialoAgent.kialo self) (content turn)) s.
Proof.
  intros Hlast. rewrite KialoAgent_response_unfold.
  unfold len, KialoAgent.previous_turn, getturn. prog_unfold.
  cbn [pbind dist draw_bound handle].
  rewrite (last_Some_length _ _ Hlast).
  cbn [pbind dist draw_bound handle].
  rewrite getitem_last, Hlast. reflexivity.
Qed.

Lemma run_reply_support kialo q g s :
  Kialo.closest_claims_fn kialo q (Some 3) "has_cons" <> [] ->
  (forall neighbor, In neighbor (Kialo.closest_claims_fn kialo q (Some 3) "has_cons") ->
                    Kialo.cons kialo neighbor <> []) ->
  exists neighbor claim,
    In neighbor (Kialo.closest_claims_fn kialo q (Some 3) "has_cons")
    /\ In claim (Kialo.cons kialo neighbor)
    /\ result (run (reply_to kialo q) g s) = Ok claim
    /\ final (run (reply_to kialo q) g s) = after_choice s q neighbor.
Proof.
  intros Hsome Hcons.
  destruct (run_reply_nonempty kialo q g s Hsome) as (i & nb & Hi & Hrun).
  assert (Hin : In nb (Kialo.closest_claims_fn kialo q (Some 3) "has_cons")).
  { apply list_elem_of_In, list_elem_of_lookup. exists i. exact Hi. }
  destruct (choose_nonempty (Kialo.cons kialo nb)
              (snd (randbelow (length (Kialo.closest_claims_fn kialo q (Some 3) "has_cons")) g))
              (Hcons nb Hin)) as (j & claim & Hj & Hch).
  exists nb, claim. rewrite Hrun. cbn zeta. rewrite Hch.
  repeat split; try assumption.
  apply list_elem_of_In, list_elem_of_lookup. exists j. exact Hj.
Qed.

(** C1.  On a non-empty dialogue [KialoAgent.response] looks up
    [closest_claims(last turn's content, n=3, kind='has_cons')], takes one
    of the returned neighbors, each position with the same probability,
    and then one of the cons of that neighbor, again each position with
    the same probability, and returns it.  The lookup is taken to return
    at least one claim, and only claims that have cons, which is what
    [kind='has_cons'] asks for.  First the distribution of the result,
    then what every single run gives. *)
Theorem KialoAgent_reply_is_random_con
    (self : KialoAgent.t) (d : ref) (s : State) (turn : Turn) :
  last (heap s d) = Some turn ->
  let kialo := KialoAgent.kialo self in
  let q := content turn in
  let neighbors := Kialo.closest_claims_fn kialo q (Some 3) "has_cons" in
  neighbors <> [] ->
  (forall neighbor, In neighbor neighbors -> Kialo.cons kialo neighbor <> []) ->
  dist (KialoAgent.response self d) s =
    dbind (uniform neighbors)
      (fun neighbor =>
         dbind (uniform (Kialo.cons kialo neighbor))
           (fun claim => dret (Ok claim, after_choice s q neighbor)))
  /\ forall g : Rng,
       exists neighbor claim,
         In neighbor neighbors
         /\ In claim (Kialo.cons kialo neighbor)
         /\ result (run (KialoAgent.response self d) g s) = Ok claim
         /\ final (run (KialoAgent.response self d) g s) = after_choice s q neighbor.
Proof.
  intros Hlast kialo q neighbors Hsome Hcons. split.
  - rewrite (dist_KialoAgent_later self d s turn Hlast).
    apply dist_reply; assumption.
  - intros g. rewrite (run_KialoAgent_later self d g s turn Hlast).
    apply run_reply_support; assumption.
Qed.

Lemma KialoAgent_reply_is_random_con_witness :
  map (fun x => (fst x, fst (snd x)))
      (dist (KialoAgent.response (KialoAgent.mk "Akiko" Sample.kialo_C1) 0)
            (Sample.state_of Sample.one_turn))
  = [(Qmult (Qmake 1 1) (Qmult (Qmake 1 2) 1), Ok "C1a");
     (Qmult (Qmake 1 1) (Qmult (Qmake 1 2) 1), Ok "C1b")]
  /\ forall g : Rng,
       exists neighbor claim,
         In neighbor ["C1"]
         /\ In claim (Kialo.cons Sample.kialo_C1 neighbor)
         /\ result (run (KialoAgent.response (KialoAgent.mk "Akiko" Sample.kialo_C1) 0)
                      g (Sample.state_of Sample.one_turn)) = Ok claim
         /\ final (run (KialoAgent.response (KialoAgent.mk "Akiko" Sample.kialo_C1) 0)
                     g (Sample.state_of Sample.one_turn))
            = after_choice (Sample.state_of Sample.one_turn) "Vegetarianism is healthy." neighbor.
Proof.
  assert (Hcons : forall neighbor, In neighbor ["C1"] ->
                                   Kialo.cons Sample.kialo_C1 neighbor <> []).
  { intros neighbor [<- | []]. vm_compute. discriminate. }
  destruct (KialoAgent_reply_is_random_con (KialoAgent.mk "Akiko" Sample.kialo_C1) 0
              (Sample.state_of Sample.one_turn)
              (mkTurn "Darius" "Vegetarianism is healthy.")
              eq_refl ltac:(discriminate) Hcons) as [Hdist Hrun].
  split; [rewrite Hdist; vm_compute; reflexivity | exact Hrun].
Defined.

(** The example of the specification: the graph has ["C1"] with the cons
    ["C1a"] and ["C1b"], the lookup resolves to [["C1"]], and the reply
    to a one-turn dialogue is one of the two cons, whatever is drawn. *)
Example KialoAgent_replies_C1a_or_C1b (nm : string) (g : Rng) :
  let o := run (KialoAgent.response (KialoAgent.mk nm Sample.kialo_C1) 0)
             g (Sample.state_of Sample.one_turn) in
  result o = Ok "C1a" \/ result o = Ok "C1b".
Proof.
  intros o. unfold o.
  rewrite (run_KialoAgent_later _ 0 g (Sample.state_of Sample.one_turn)
             (mkTurn "Darius" "Vegetarianism is healthy.") eq_refl).
  destruct (run_reply_support Sample.kialo_C1 "Vegetarianism is healthy." g
              (Sample.state_of Sample.one_turn)) as (nb & claim & Hnb & Hclaim & Hres & _).
  - discriminate.
  - intros neighbor [<- | []]. vm_compute. discriminate.
  - cbn [KialoAgent.kialo content]. rewrite Hres.
    destruct Hnb as [<- | []].
    vm_compute in Hclaim. destruct Hclaim as [<- | [<- | []]]; auto.
Qed.

(** ** [RAG_Agent.response], step by step *)

Section RAG.

Variable dto : Dialogue -> string -> Kwargs -> Outcome (list Message).
Variables (self : RAG_Agent.t) (d : ref) (kialo : Kialo.t) (kwargs : Kwargs).

(** Every way a run can go, with the calls it has made by then. *)
Lemma run_RAG_Agent g s :
  run (RAG_Agent.response dto self d kialo kwargs) g s =
  if kw_clash ["speaker"] (RAG_Agent.kwargs_format self) then (Exc TypeError, g, s) else
  match dto (heap s d) (RAG_Agent.name self) (RAG_Agent.kwargs_format self) with
  | Exc e => (Exc e, g, s)
  | Ok messages =>
    let s1 := add_call s (CallLog INFO (RAG_Agent.calling_msg self messages)) in
    if kw_clash ["messages"; "model"] (dict_or (RAG_Agent.kwargs_llm self) kwargs)
    then (Exc TypeError, g, s1) else
    let s2 := add_call s1 (CallChatCreate messages (RAG_Agent.model self)
                 (dict_or (RAG_Agent.kwargs_llm self) kwargs)) in
    match RAG_Agent.client self messages (RAG_Agent.model self)
            (dict_or (RAG_Agent.kwargs_llm self) kwargs) with
    | Exc e => (Exc e, g, s2)
    | Ok response =>
      let s3 := add_call s2 (CallLog DEBUG (RAG_Agent.response_msg (completion_repr response))) in
      match choices response with
      | [] => (Exc IndexError, g, s3)
      | choice :: _ =>
        match message_content choice with
        | None => (Exc (ValueError RAG_Agent.no_content_msg), g, s3)
        | Some content =>
          let content := RAG_Agent.clean_up self choice content in
          (Ok content, g,
           if DEBUG <? log_level s
           then add_call s3 (CallLog INFO (RAG_Agent.response_msg content))
           else s3)
        end
      end
    end
  end.
Proof.
  unfold RAG_Agent.response, RAG_Agent.call_dialogue_to_openai,
    RAG_Agent.chat_completions_create, log_info, log_debug. prog_unfold.
  destruct (kw_clash ["speaker"] (RAG_Agent.kwargs_format self)); [reflexivity |].
  cbn [pbind run draw_bound handle].
  destruct (dto (heap s d) (RAG_Agent.name self) (RAG_Agent.kwargs_format self))
    as [messages | e]; [| reflexivity].
  cbn [lift_outcome pbind run draw_bound handle].
  destruct (kw_clash ["messages"; "model"] (dict_or (RAG_Agent.kwargs_llm self) kwargs)); [reflexivity |].
  cbn [pbind run draw_bound handle].
  destruct (RAG_Agent.client self messages (RAG_Agent.model self)
                 (dict_or (RAG_Agent.kwargs_llm self) kwargs))
    as [response | e]; [| reflexivity].
  cbn [lift_outcome pbind run draw_bound handle].
  rewrite run_bind, run_getitem_0.
  destruct (choices response) as [| choice rest]; [reflexivity |].
  cbn [first_item].
  destruct (message_content choice) as [content |]; [| reflexivity].
  cbn [pbind run draw_bound handle add_call log_level].
  destruct (DEBUG <? log_level s); reflexivity.
Qed.

End RAG.

Ltac new_calls_of :=
  apply new_calls_app; cbn [final snd add_call calls];
  rewrite <- ?app_assoc; cbn [app]; try reflexivity;
  try (symmetry; apply app_nil_r).

Section RAG_calls.

Variable dto : Dialogue -> string -> Kwargs -> Outcome (list Message).
Variables (self : RAG_Agent.t) (d : ref) (kialo : Kialo.t) (kwargs : Kwargs).

(** The calls of a run: at most one request to the client, framed by
    log lines, and nothing else. *)
Lemma RAG_Agent_calls g s :
  let o := run (RAG_Agent.response dto self d kialo kwargs) g s in
  new_calls o s = []
  \/ (exists messages,
        dto (heap s d) (RAG_Agent.name self) (RAG_Agent.kwargs_format self) = Ok messages
        /\ (new_calls o s = [CallLog INFO (RAG_Agent.calling_msg self messages)]
            \/ exists logs,
                 new_calls o s =
                 CallLog INFO (RAG_Agent.calling_msg self messages)
                 :: CallChatCreate messages (RAG_Agent.model self)
                      (dict_or (RAG_Agent.kwargs_llm self) kwargs)
                 :: logs
                 /\ forallb (fun c => match c with CallLog _ _ => true | _ => false end) logs
                    = true)).
Proof.
  intros o. unfold o. rewrite run_RAG_Agent.
  destruct (kw_clash ["speaker"] _); [left; new_calls_of |].
  destruct (dto _ _ _) as [messages | e]; [| left; new_calls_of].
  right. exists messages. split; [reflexivity |]. cbn zeta.
  destruct (kw_clash ["messages"; "model"] _); [left; new_calls_of |].
  right.
  destruct (RAG_Agent.client self _ _ _) as [response | e];
    [| exists []; split; [new_calls_of | reflexivity]].
  destruct (choices response) as [| choice rest];
    [eexists; split; [new_calls_of | reflexivity] |].
  destruct (message_content choice) as [content |];
    [| eexists; split; [new_calls_of | reflexivity]].
  destruct (DEBUG <? log_level s); eexists; (split; [new_calls_of | reflexivity]).
Qed.

End RAG_calls.

Ltac new_calls_in H :=
  match type of H with
  | context [new_calls ?o ?s] =>
      erewrite (new_calls_app o s) in H
        by (cbn [final snd add_call calls]; rewrite <- ?app_assoc; cbn [app];
            first [reflexivity | symmetry; apply app_nil_r])
  end.

Lemma log_lines_not_lookups (logs : list Call) :
  forallb (fun c => match c with CallLog _ _ => true | _ => false end) logs = true ->
  existsb is_closest_claims logs = false.
Proof.
  induction logs as [| c logs IH]; [reflexivity |].
  cbn [forallb]. intros Hlogs. apply andb_prop in Hlogs as [Hc Hrest].
  destruct c; try discriminate. cbn [existsb is_closest_claims orb]. apply IH, Hrest.
Qed.

(** C5.  What [RAG_Agent.response] does with its [kialo] argument:
    nothing.  The run is the same for any two graphs, it never calls
    [closest_claims], and the messages of its request to the client are
    the messages [dialogue_to_openai] made from the dialogue, with no
    block of retrieved claims before them. *)
Theorem RAG_Agent_sends_dialogue_only
    (dto : Dialogue -> string -> Kwargs -> Outcome (list Message))
    (self : RAG_Agent.t) (d : ref) (kialo kialo' : Kialo.t) (kwargs : Kwargs)
    (g : Rng) (s : State) :
  let o := run (RAG_Agent.response dto self d kialo kwargs) g s in
  o = run (RAG_Agent.response dto self d kialo' kwargs) g s
  /\ existsb is_closest_claims (new_calls o s) = false
  /\ forall messages model kw,
       In (CallChatCreate messages model kw) (new_calls o s) ->
       dto (heap s d) (RAG_Agent.name self) (RAG_Agent.kwargs_format self) = Ok messages.
Proof.
  intros o. subst o. split; [reflexivity |].
  pose proof (RAG_Agent_calls dto self d kialo kwargs g s) as Hcases. cbv zeta in Hcases.
  destruct Hcases as [Hnone | (messages & Hdto & [Hlog | (logs & Hcalls & Hlogs)])].
  - rewrite Hnone. split; [reflexivity |]. intros ? ? ? [].
  - rewrite Hlog. split; [reflexivity |]. intros ? ? ? [Heq | []]. discriminate.
  - rewrite Hcalls. split.
    + cbn [existsb is_closest_claims orb]. apply log_lines_not_lookups. exact Hlogs.
    + intros ms mdl kw [Heq | [Heq | Hin]]; [discriminate | congruence |].
      exfalso. rewrite forallb_forall in Hlogs. specialize (Hlogs _ Hin). discriminate.
Qed.

(** C6.  When the request of [RAG_Agent.response] to the client has
    returned a completion, the call fails with the no-content error (a
    [ValueError] with the message of line 150) exactly when the content of
    the first choice is not a string.  The error is the outcome of
    [response] itself: nothing catches it. *)
Theorem no_content_error_iff
    (dto : Dialogue -> string -> Kwargs -> Outcome (list Message))
    (self : RAG_Agent.t) (d : ref) (kialo : Kialo.t) (kwargs : Kwargs)
    (g : Rng) (s : State) (messages : list Message) (model : string) (kw : Kwargs)
    (response : Completion) :
  let o := run (RAG_Agent.response dto self d kialo kwargs) g s in
  In (CallChatCreate messages model kw) (new_calls o s) ->
  RAG_Agent.client self messages model kw = Ok response ->
  (result o = Exc (ValueError RAG_Agent.no_content_msg)
   <-> exists choice, head (choices response) = Some choice /\ message_content choice = None).
Proof.
  intros o Hin Hclient. unfold o in *. clear o. rewrite run_RAG_Agent in *.
  destruct (kw_clash ["speaker"] _); [new_calls_in Hin; destruct Hin |].
  destruct (dto _ _ _) as [messages' | e]; [| new_calls_in Hin; destruct Hin].
  cbn zeta in *.
  destruct (kw_clash ["messages"; "model"] _);
    [new_calls_in Hin; destruct Hin as [Heq | []]; discriminate |].
  assert (Hargs : messages' = messages /\ RAG_Agent.model self = model
                  /\ dict_or (RAG_Agent.kwargs_llm self) kwargs = kw).
  { destruct (RAG_Agent.client self messages' _ _) as [r | e];
      [destruct (choices r) as [| c rest];
       [| destruct (message_content c); [destruct (DEBUG <? log_level s) |]] |];
      new_calls_in Hin; cbn [In] in Hin;
      repeat match goal with
             | H : _ \/ _ |- _ => destruct H as [H | H]
             | H : False |- _ => destruct H
             | H : CallLog _ _ = CallChatCreate _ _ _ |- _ => discriminate H
             | H : CallChatCreate _ _ _ = CallChatCreate _ _ _ |- _ =>
                 injection H as -> -> ->; auto
             end. }
  destruct Hargs as (-> & -> & ->). rewrite Hclient in *. clear Hin.
  destruct (choices response) as [| choice rest]; cbn [result fst head].
  - split; [discriminate | intros (c & Hc & _); discriminate].
  - destruct (message_content choice) as [content |] eqn:Hcontent.
    + split; [discriminate |]. intros (c & Hc & Hnone). congruence.
    + split; [| reflexivity]. intros _. exists choice. auto.
Qed.

Lemma no_content_error_iff_witness :
  result (run (RAG_Agent.response Sample.to_messages
                 (Sample.alice (mkChoice None "stop")) 0 Sample.kialo_C1 [])
              Sample.rng (Sample.state_of Sample.one_turn))
  = Exc (ValueError RAG_Agent.no_content_msg)
  <-> exists choice,
        head (choices (mkCompletion [mkChoice None "stop"] "ChatCompletion(...)")) = Some choice
        /\ message_content choice = None.
Proof.
  apply (no_content_error_iff Sample.to_messages (Sample.alice (mkChoice None "stop")) 0
           Sample.kialo_C1 [] Sample.rng (Sample.state_of Sample.one_turn)
           [mkMessage "user" "Vegetarianism is healthy."]
           "gpt-3.5-turbo-1106" [("temperature", "0.7")]
           (mkCompletion [mkChoice None "stop"] "ChatCompletion(...)")).
  - vm_compute. right. left. reflexivity.
  - reflexivity.
Defined.

(** ** The clean-up of the content *)

(** C7.  A completion cut off right after the speaker label: the agent
    is Alice, the raw content is ["Alice:"] and the finish reason is
    ['length'].  The content does not start with ["Alice: "], yet after
    [" ..."] is appended the test for the label succeeds and the label
    goes together with the blank of the marker: the reply is ["..."],
    which does not end with [" ..."]. *)
Theorem truncated_label_loses_marker :
  let choice := mkChoice (Some "Alice:") "length" in
  let o := run (RAG_Agent.response Sample.to_messages (Sample.alice choice) 0
                  Sample.kialo_C1 [])
               Sample.rng (Sample.state_of Sample.one_turn) in
  result o = Ok "..."
  /\ PyStr.endswith "..." " ..." = false
  /\ PyStr.startswith "Alice:" "Alice: " = false.
Proof. vm_compute. repeat split. Qed.

Section Strings.

Lemma string_length_app (a b : string) :
  String.length (a +:+ b) = String.length a + String.length b.
Proof.
  induction a as [| c a IH]; [reflexivity |].
  change (S (String.length (a +:+ b)) = S (String.length a + String.length b)).
  f_equal. exact IH.
Qed.

Lemma prefix_cons (c c' : ascii) (p a : string) :
  String.prefix (String c p) (String c' a) = true <-> c = c' /\ String.prefix p a = true.
Proof.
  cbn [String.prefix]. destruct (ascii_dec c c') as [-> | Hne].
  - split; [auto | intros [_ H]; exact H].
  - split; [discriminate | intros [Heq _]; contradiction].
Qed.

Lemma prefix_app_l (p a b : string) :
  String.prefix p a = true -> String.prefix p (a +:+ b) = true.
Proof.
  revert a. induction p as [| c p IH]; intros a H; [destruct (a +:+ b); reflexivity |].
  destruct a as [| c' a]; [discriminate |].
  change (String.prefix (String c p) (String c' (a +:+ b)) = true).
  apply prefix_cons in H as [-> H]. apply prefix_cons. split; [reflexivity | apply IH, H].
Qed.

Lemma prefix_length (p a : string) :
  String.prefix p a = true -> String.length p <= String.length a.
Proof.
  revert a. induction p as [| c p IH]; intros a H; [cbn; lia |].
  destruct a as [| c' a]; [discriminate |].
  apply prefix_cons in H as [_ H]. cbn [String.length]. apply IH in H. lia.
Qed.

Lemma slice_from_app (n : nat) (a b : string) :
  n <= String.length a -> PyStr.slice_from n (a +:+ b) = PyStr.slice_from n a +:+ b.
Proof.
  revert a. induction n as [| n IH]; intros a Hn; [destruct a; reflexivity |].
  destruct a as [| c a]; cbn [String.length] in Hn; [lia |].
  change (PyStr.slice_from n (a +:+ b) = PyStr.slice_from n a +:+ b).
  apply IH. lia.
Qed.

Lemma slice_from_prefix (p a : string) :
  PyStr.slice_from (String.length p) (p +:+ a) = a.
Proof.
  induction p as [| c p IH]; [destruct a; reflexivity |]. exact IH.
Qed.

Lemma prefix_split (p a : string) :
  String.prefix p a = true -> a = p +:+ PyStr.slice_from (String.length p) a.
Proof.
  revert a. induction p as [| c p IH]; intros a H; [destruct a; reflexivity |].
  destruct a as [| c' a]; [discriminate |].
  apply prefix_cons in H as [-> H].
  change (String c' a = String c' (p +:+ PyStr.slice_from (String.length p) a)).
  f_equal. apply IH, H.
Qed.

Lemma endswith_app (a m : string) : PyStr.endswith (a +:+ m) m = true.
Proof.
  unfold PyStr.endswith. rewrite string_length_app.
  replace (String.length a + String.length m - String.length m) with (String.length a) by lia.
  rewrite slice_from_prefix, String.eqb_refl. cbn [andb]. apply Nat.leb_le. lia.
Qed.

(** A label ends in [": "], so it is not the beginning of a run of dots. *)
Lemma label_not_in_dots (n t : string) :
  (forall c, In c (list_ascii_of_string t) -> c = "."%char) ->
  String.prefix (n +:+ ": ") t = false.
Proof.
  revert t. induction n as [| a n IH]; intros t Hdots.
  - destruct t as [| c t]; [reflexivity |].
    change (String.prefix (String ":" " ") (String c t) = false).
    cbn [String.prefix]. destruct (ascii_dec ":" c) as [<- | _]; [| reflexivity].
    specialize (Hdots ":"%char (or_introl eq_refl)). discriminate.
  - destruct t as [| c t]; [reflexivity |].
    change (String.prefix (String a (n +:+ ": ")) (String c t) = false).
    cbn [String.prefix]. destruct (ascii_dec a c) as [_ | _]; [| reflexivity].
    apply IH. intros c' Hc'. apply Hdots. right. exact Hc'.
Qed.

(** With the marker appended, the label is found where the content has
    it, and in one more case: the content is the label without its
    final blank. *)
Lemma label_after_marker (n raw : string) :
  String.prefix (n +:+ ": ") (raw +:+ " ...") = true ->
  String.prefix (n +:+ ": ") raw = true \/ raw = n +:+ ":".
Proof.
  revert raw. induction n as [| a n IH]; intros raw H.
  - destruct raw as [| c [| c2 r]].
    + discriminate.
    + apply (prefix_cons ":" c " " " ...") in H as [<- _]. right. reflexivity.
    + apply (prefix_cons ":" c " " (String c2 (r +:+ " ..."))) in H as [<- H].
      apply (prefix_cons " " c2 EmptyString (r +:+ " ...")) in H as [<- _].
      left. apply (prefix_cons ":" ":" " " (String " " r)). split; [reflexivity |].
      apply (prefix_cons " " " " EmptyString r). split; [reflexivity |].
      destruct r; reflexivity.
  - destruct raw as [| c r].
    + apply (prefix_cons a " " (n +:+ ": ") "...") in H as [_ H].
      rewrite label_not_in_dots in H; [discriminate |].
      intros c [<- | [<- | [<- | []]]]; reflexivity.
    + apply (prefix_cons a c (n +:+ ": ") (r +:+ " ...")) in H as [-> H].
      destruct (IH r H) as [Hp | ->].
      * left. apply (prefix_cons c c (n +:+ ": ") r). auto.
      * right. reflexivity.
Qed.

End Strings.

Lemma string_app_assoc (a b c : string) : (a +:+ b) +:+ c = a +:+ (b +:+ c).
Proof.
  induction a as [| x a IH]; [reflexivity |].
  change (String x ((a +:+ b) +:+ c) = String x (a +:+ (b +:+ c))). f_equal. exact IH.
Qed.

Lemma prefix_app_refl (p a : string) : String.prefix p (p +:+ a) = true.
Proof.
  induction p as [| c p IH]; [destruct a; reflexivity |].
  apply (prefix_cons c c p (p +:+ a)). auto.
Qed.

(** Outside that one case the clean-up does what the comments of the
    code say: a truncated content gets the marker [" ..."] at its
    end, and the label goes exactly when the content starts with it. *)
Lemma clean_up_truncated (self : RAG_Agent.t) (choice : Choice) (raw : string) :
  finish_reason choice = "length" ->
  raw <> RAG_Agent.name self +:+ ":" ->
  exists body,
    RAG_Agent.clean_up self choice raw = body +:+ " ..."
    /\ (if PyStr.startswith raw (RAG_Agent.name self +:+ ": ")
        then raw = (RAG_Agent.name self +:+ ": ") +:+ body
        else body = raw).
Proof.
  intros Hfin Hraw. unfold RAG_Agent.clean_up, PyStr.startswith. rewrite Hfin.
  cbn [String.eqb Ascii.eqb Bool.eqb].
  destruct (String.prefix (RAG_Agent.name self +:+ ": ") (raw +:+ " ...")) eqn:Hmarked.
  - apply label_after_marker in Hmarked as [Hlabel | ->]; [| contradiction].
    rewrite Hlabel.
    exists (PyStr.slice_from (String.length (RAG_Agent.name self +:+ ": ")) raw).
    split; [apply slice_from_app, prefix_length, Hlabel | apply prefix_split, Hlabel].
  - destruct (String.prefix (RAG_Agent.name self +:+ ": ") raw) eqn:Hlabel.
    + rewrite (prefix_app_l _ _ " ..." Hlabel) in Hmarked. discriminate.
    + exists raw. auto.
Qed.

Lemma clean_up_truncated_endswith (self : RAG_Agent.t) (choice : Choice) (raw : string) :
  finish_reason choice = "length" ->
  raw <> RAG_Agent.name self +:+ ":" ->
  PyStr.endswith (RAG_Agent.clean_up self choice raw) " ..." = true.
Proof.
  intros Hfin Hraw.
  destruct (clean_up_truncated self choice raw Hfin Hraw) as (body & -> & _).
  apply endswith_app.
Qed.

(** The same for any name: the content is the label without its blank,
    and the reply is three dots. *)
Lemma clean_up_label_only (self : RAG_Agent.t) (choice : Choice) :
  finish_reason choice = "length" ->
  RAG_Agent.clean_up self choice (RAG_Agent.name self +:+ ":") = "...".
Proof.
  intros Hfin. unfold RAG_Agent.clean_up, PyStr.startswith. rewrite Hfin.
  cbn [String.eqb Ascii.eqb Bool.eqb].
  replace ((RAG_Agent.name self +:+ ":") +:+ " ...")
    with ((RAG_Agent.name self +:+ ": ") +:+ "...")
    by (rewrite !string_app_assoc; reflexivity).
  rewrite prefix_app_refl. apply slice_from_prefix.
Qed.

(** ** [kialo_responses] *)

(** C9.  [kialo_responses] takes element [0] of the lookup's result
    without a guard.  When the lookup returns an empty list the call ends
    in an [IndexError]; otherwise it returns a text that begins with the
    line for the first claim found. *)
Theorem kialo_responses_takes_first_unguarded
    (kialo : Kialo.t) (q : string) (g : Rng) (s : State) :
  let o := run (kialo_responses kialo q) g s in
  match Kialo.closest_claims_fn kialo q None "has_cons" with
  | [] => result o = Exc IndexError
  | c :: _ => exists text, result o = Ok text
                           /\ PyStr.startswith text (related_claim_msg c) = true
  end.
Proof.
  intros o. subst o. unfold kialo_responses. prog_unfold.
  rewrite run_bind, run_closest_claims.
  destruct (Kialo.closest_claims_fn kialo q None "has_cons") as [| c rest];
    [reflexivity |].
  rewrite run_bind, run_getitem_0. cbn [first_item run result fst].
  eexists. split; [reflexivity |]. unfold PyStr.startswith.
  generalize (related_claim_msg c) as line. intros line.
  destruct (PySeq.truthy (Kialo.pros kialo c)), (PySeq.truthy (Kialo.cons kialo c)).
  - apply prefix_app_l, prefix_app_refl.
  - apply prefix_app_refl.
  - apply prefix_app_refl.
  - pose proof (prefix_app_refl line EmptyString) as Hrefl.
    rewrite string_app_nil_r in Hrefl. exact Hrefl.
Qed.

(** * Further properties *)

(** ** Programs without draws *)

Lemma draw_free_run {A} (p : Prog A) g s :
  draw_free p -> rng_after (run p g s) = g.
Proof.
  revert s. induction p as [a | e | X ev k IH]; intros s; cbn [draw_free run];
    [reflexivity | reflexivity |].
  intros [Hev Hk]. rewrite Hev. destruct (handle ev 0 s) as [x s']. apply IH, Hk.
Qed.

Lemma draw_free_any_rng {A} (p : Prog A) g g' s :
  draw_free p ->
  result (run p g s) = result (run p g' s) /\ final (run p g s) = final (run p g' s).
Proof.
  revert s. induction p as [a | e | X ev k IH]; intros s; cbn [draw_free run];
    [auto | auto |].
  intros [Hev Hk]. rewrite Hev. destruct (handle ev 0 s) as [x s']. apply IH, Hk.
Qed.

Lemma draw_free_bind {A B} (p : Prog A) (f : A -> Prog B) :
  draw_free p -> (forall a, draw_free (f a)) -> draw_free (pbind p f).
Proof.
  intros Hp Hf. induction p as [a | e | X ev k IH]; cbn [pbind draw_free]; auto.
  destruct Hp as [Hev Hk]. split; auto.
Qed.

Lemma draw_free_getitem {A} (l : list A) i : draw_free (getitem l i).
Proof.
  unfold getitem. destruct (PySeq.norm_index _ _); cbn; auto.
  destruct (l !! n); cbn; auto.
Qed.

Lemma draw_free_lift_outcome {A} (o : Outcome A) : draw_free (lift_outcome o).
Proof. destruct o; cbn; auto. Qed.

Lemma draw_free_mapM {A B} (f : A -> Prog B) (l : list A) :
  (forall a, draw_free (f a)) -> draw_free (mapM f l).
Proof.
  intros Hf. induction l as [| a l IH]; cbn [mapM]; [cbn; auto |].
  prog_unfold. apply draw_free_bind; auto.
  intros b. apply draw_free_bind; auto. intros bs. cbn. auto.
Qed.

(** A prefix without draws contributes one outcome to the distribution:
    the one of its run, from any tape. *)
Lemma dist_bind_draw_free {A B} (p : Prog A) (f : A -> Prog B) g s :
  draw_free p ->
  dist (pbind p f) s =
  match result (run p g s) with
  | Ok a => dist (f a) (final (run p g s))
  | Exc e => dret (Exc e, final (run p g s))
  end.
Proof.
  revert s. induction p as [a | e | X ev k IH]; intros s; cbn [draw_free pbind dist run];
    [reflexivity | reflexivity |].
  intros [Hev Hk]. rewrite Hev. destruct (handle ev 0 s) as [x s']. apply IH, Hk.
Qed.

(** ** [kialo_responses]: what it makes of the lists *)

Lemma concat_empty_cons (a : string) (l : list string) :
  String.concat EmptyString (a :: l) = a +:+ String.concat EmptyString l.
Proof.
  destruct l as [| b l]; [symmetry; apply string_app_nil_r | reflexivity].
Qed.

(** [sep.join([h] + l)] is [h] followed by every item of [l] behind a
    separator. *)
Lemma join_header_items (sep h : string) (l : list string) :
  PyStr.join sep (h :: l) = h +:+ String.concat EmptyString (map (fun x => sep +:+ x) l).
Proof.
  unfold PyStr.join. revert h. induction l as [| x l IH]; intros h.
  - symmetry. apply string_app_nil_r.
  - change (String.concat sep (h :: x :: l)) with (h +:+ sep +:+ String.concat sep (x :: l)).
    rewrite IH. cbn [map]. rewrite concat_empty_cons, string_app_assoc. reflexivity.
Qed.

Lemma draw_free_kialo_responses kialo q : draw_free (kialo_responses kialo q).
Proof.
  unfold kialo_responses, Kialo.closest_claims. prog_unfold.
  cbn [pbind draw_free draw_bound]. split; [reflexivity |]. intros _.
  apply draw_free_bind; [apply draw_free_getitem | cbn; auto].
Qed.

Lemma read_only_kialo_responses kialo q : read_only (kialo_responses kialo q).
Proof.
  unfold kialo_responses, Kialo.closest_claims. prog_unfold.
  cbn [pbind read_only is_append]. split; [reflexivity |]. intros _.
  apply read_only_bind; [apply read_only_getitem | cbn; auto].
Qed.

(** X1.  When the lookup finds a claim, [kialo_responses] returns the
    line for the first claim found, then its pros under their header,
    then its cons under theirs: every item on a bullet line of its own,
    in the order of the list, and no header for an empty list. *)
Theorem kialo_responses_text
    (kialo : Kialo.t) (q : string) (g : Rng) (s : State) (c : Claim) (rest : list Claim) :
  Kialo.closest_claims_fn kialo q None "has_cons" = c :: rest ->
  result (run (kialo_responses kialo q) g s)
  = Ok (related_claim_msg c
        +:+ bullet_block in_favor_msg (Kialo.pros kialo c)
        +:+ bullet_block against_msg (Kialo.cons kialo c)).
Proof.
  intros Hfound. unfold kialo_responses. prog_unfold.
  rewrite run_bind, run_closest_claims, Hfound, run_bind, run_getitem_0.
  cbn [first_item run result fst]. f_equal.
  rewrite !join_header_items. generalize (related_claim_msg c) as line. intros line.
  destruct (Kialo.pros kialo c) as [| p ps], (Kialo.cons kialo c) as [| n ns];
    cbn [PySeq.truthy bullet_block]; rewrite ?string_app_nil_r, ?string_app_assoc;
    reflexivity.
Qed.

Lemma kialo_responses_text_witness :
  result (run (kialo_responses MoreSamples.kialo_both "q") Sample.rng (Sample.state_of []))
  = Ok (related_claim_msg "C3"
        +:+ bullet_block in_favor_msg ["C3p"; "C3q"]
        +:+ bullet_block against_msg ["C3a"]).
Proof.
  apply (kialo_responses_text MoreSamples.kialo_both "q" Sample.rng (Sample.state_of [])
           "C3" ["C4"]).
  reflexivity.
Defined.

(** X2.  Whatever the graph and the query, [kialo_responses] makes one
    call, [closest_claims(s, kind='has_cons')] with no [n], draws no
    random number and changes no dialogue; this holds for a failing call
    too. *)
Theorem kialo_responses_effects (kialo : Kialo.t) (q : string) (g : Rng) (s : State) :
  let o := run (kialo_responses kialo q) g s in
  new_calls o s = [CallClosestClaims q None "has_cons"]
  /\ rng_after o = g
  /\ heap (final o) = heap s.
Proof.
  intros o. subst o. split; [| split].
  - apply new_calls_app. unfold kialo_responses. prog_unfold.
    rewrite run_bind, run_closest_claims, run_bind, run_getitem_0.
    destruct (Kialo.closest_claims_fn kialo q None "has_cons"); reflexivity.
  - apply draw_free_run, draw_free_kialo_responses.
  - apply read_only_run, read_only_kialo_responses.
Qed.

(** ** The Kialo agents: what a later turn draws, calls and ignores *)

(** A run of the steps after the query, in full. *)
Lemma run_reply kialo q g s :
  run (reply_to kialo q) g s =
  match Kialo.closest_claims_fn kialo q (Some 3) "has_cons" with
  | [] => (Exc (AssertionError KialoAgent.no_claims_msg), g, after_lookup s q)
  | c :: cs =>
      match choose (c :: cs) g with
      | (Ok neighbor, g1) =>
          (fst (choose (Kialo.cons kialo neighbor) g1),
           snd (choose (Kialo.cons kialo neighbor) g1),
           after_choice s q neighbor)
      | (Exc e, g1) => (Exc e, g1, after_lookup s q)
      end
  end.
Proof.
  unfold reply_to. prog_unfold. rewrite run_bind, run_closest_claims.
  destruct (Kialo.closest_claims_fn kialo q (Some 3) "has_cons") as [| c cs];
    [reflexivity |].
  cbn [PySeq.truthy py_assert pbind]. rewrite run_bind, run_random_choice.
  destruct (choose (c :: cs) g) as [[neighbor | e] g1]; cbn [fst snd]; [| reflexivity].
  unfold log_info. prog_unfold. cbn [pbind run draw_bound handle].
  rewrite run_bind, run_random_choice.
  destruct (choose (Kialo.cons kialo neighbor) g1) as [[x | e] g2]; reflexivity.
Qed.

Lemma calls_after_lookup s q :
  calls (after_lookup s q) = calls s ++ [CallClosestClaims q (Some 3) "has_cons"].
Proof. reflexivity. Qed.

Lemma calls_after_choice s q neighbor :
  calls (after_choice s q neighbor)
  = calls s ++ [CallClosestClaims q (Some 3) "has_cons";
                CallLog INFO (KialoAgent.chose_msg neighbor)].
Proof. cbn [after_choice after_lookup add_call calls]. rewrite <- app_assoc. reflexivity. Qed.

Lemma new_calls_after_lookup {A} (r : Outcome A) g s q :
  new_calls (r, g, after_lookup s q) s = [CallClosestClaims q (Some 3) "has_cons"].
Proof. apply new_calls_app, calls_after_lookup. Qed.

Lemma new_calls_after_choice {A} (r : Outcome A) g s q neighbor :
  new_calls (r, g, after_choice s q neighbor) s
  = [CallClosestClaims q (Some 3) "has_cons"; CallLog INFO (KialoAgent.chose_msg neighbor)].
Proof. apply new_calls_app, calls_after_choice. Qed.

(** The result, the generator and the calls of the steps after the query
    do not depend on the state they start from. *)
Lemma run_reply_any_state kialo q g s s' :
  result (run (reply_to kialo q) g s) = result (run (reply_to kialo q) g s')
  /\ rng_after (run (reply_to kialo q) g s) = rng_after (run (reply_to kialo q) g s')
  /\ new_calls (run (reply_to kialo q) g s) s = new_calls (run (reply_to kialo q) g s') s'.
Proof.
  rewrite !run_reply.
  destruct (Kialo.closest_claims_fn kialo q (Some 3) "has_cons") as [| c cs].
  - repeat split. rewrite !new_calls_after_lookup. reflexivity.
  - destruct (choose (c :: cs) g) as [[neighbor | e] g1].
    + repeat split. rewrite !new_calls_after_choice. reflexivity.
    + repeat split. rewrite !new_calls_after_lookup. reflexivity.
Qed.

(** X3.  [KialoAgent] answers the last turn only: for two dialogues that
    end with the same content, whatever came before it and whoever said
    it, the reply, the draws and the calls are the same. *)
Theorem KialoAgent_answers_last_turn_only
    (self : KialoAgent.t) (d d' : ref) (g : Rng) (s s' : State) (turn turn' : Turn) :
  last (heap s d) = Some turn ->
  last (heap s' d') = Some turn' ->
  content turn = content turn' ->
  let o := run (KialoAgent.response self d) g s in
  let o' := run (KialoAgent.response self d') g s' in
  result o = result o' /\ rng_after o = rng_after o' /\ new_calls o s = new_calls o' s'.
Proof.
  intros Hlast Hlast' Hsame o o'. subst o o'.
  rewrite (run_KialoAgent_later self d g s turn Hlast).
  rewrite (run_KialoAgent_later self d' g s' turn' Hlast'), <- Hsame.
  apply run_reply_any_state.
Qed.

Lemma KialoAgent_answers_last_turn_only_witness :
  let o := run (KialoAgent.response (KialoAgent.mk "Akiko" MoreSamples.kialo_both) 0)
             Sample.rng (Sample.state_of Sample.three_turns) in
  let o' := run (KialoAgent.response (KialoAgent.mk "Akiko" MoreSamples.kialo_both) 1)
              Sample.rng (Sample.state_of [mkTurn "Akiki" "c"]) in
  result o = result o' /\ rng_after o = rng_after o'
  /\ new_calls o (Sample.state_of Sample.three_turns)
     = new_calls o' (Sample.state_of [mkTurn "Akiki" "c"]).
Proof.
  apply (KialoAgent_answers_last_turn_only (KialoAgent.mk "Akiko" MoreSamples.kialo_both)
           0 1 Sample.rng (Sample.state_of Sample.three_turns)
           (Sample.state_of [mkTurn "Akiki" "c"])
           (mkTurn "Darius" "c") (mkTurn "Akiki" "c")); reflexivity.
Defined.

(** X4.  On a non-empty dialogue [KialoAgent.response] makes exactly one
    lookup, for the last turn's content with [n=3] and
    [kind='has_cons'], before anything else; it does not call
    [random_chain], and at most one log line follows the lookup. *)
Theorem KialoAgent_later_turn_calls
    (self : KialoAgent.t) (d : ref) (g : Rng) (s : State) (turn : Turn) :
  last (heap s d) = Some turn ->
  exists rest,
    new_calls (run (KialoAgent.response self d) g s) s
    = CallClosestClaims (content turn) (Some 3) "has_cons" :: rest
    /\ existsb is_closest_claims rest = false
    /\ existsb is_random_chain rest = false
    /\ length rest <= 1.
Proof.
  intros Hlast. rewrite (run_KialoAgent_later self d g s turn Hlast), run_reply.
  destruct (Kialo.closest_claims_fn _ _ _ _) as [| c cs].
  - exists []. rewrite new_calls_after_lookup. cbn. auto.
  - destruct (choose (c :: cs) g) as [[neighbor | e] g1].
    + exists [CallLog INFO (KialoAgent.chose_msg neighbor)].
      rewrite new_calls_after_choice. cbn. auto.
    + exists []. rewrite new_calls_after_lookup. cbn. auto.
Qed.

Lemma KialoAgent_later_turn_calls_witness :
  exists rest,
    new_calls (run (KialoAgent.response (KialoAgent.mk "Akiko" MoreSamples.kialo_both) 0)
                 Sample.rng (Sample.state_of Sample.three_turns))
              (Sample.state_of Sample.three_turns)
    = CallClosestClaims "c" (Some 3) "has_cons" :: rest
    /\ existsb is_closest_claims rest = false
    /\ existsb is_random_chain rest = false
    /\ length rest <= 1.
Proof.
  apply (KialoAgent_later_turn_calls (KialoAgent.mk "Akiko" MoreSamples.kialo_both) 0
           Sample.rng (Sample.state_of Sample.three_turns) (mkTurn "Darius" "c")).
  reflexivity.
Defined.







(** *** The distribution of the reply of [KialoAgent2] *)

Lemma draw_free_len d : draw_free (len d).
Proof. unfold len. prog_unfold. cbn. auto. Qed.

Lemma draw_free_previous_turn2 d : draw_free (KialoAgent2.previous_turn d).
Proof.
  unfold KialoAgent2.previous_turn, len, getturn. prog_unfold.
  cbn [pbind draw_free draw_bound]. split; [reflexivity |]. intros turns.
  apply draw_free_bind; [| cbn; auto].
  apply draw_free_mapM. intros i. cbn [pbind draw_free draw_bound].
  split; [reflexivity |]. intros turns'.
  apply draw_free_bind; [apply draw_free_getitem | cbn; auto].
Qed.

Lemma dist_KialoAgent2_later self d s :
  length (heap s d) <> 0 ->
  dist (KialoAgent2.response self d) s
  = dist (reply_to (KialoAgent2.kialo self) (policy_B (heap s d))) s.
Proof.
  intros Hlen. rewrite KialoAgent2_response_unfold.
  rewrite (dist_bind_draw_free (len d) _ Sample.rng s (draw_free_len d)), run_len.
  cbn [result final fst snd].
  destruct (Nat.eqb_spec (length (heap s d)) 0) as [Heq | _]; [contradiction |].
  rewrite (dist_bind_draw_free (KialoAgent2.previous_turn d) _ Sample.rng s
             (draw_free_previous_turn2 d)), run_previous_turn2.
  reflexivity.
Qed.

(** X7.  On a non-empty dialogue [KialoAgent2.response] chooses like
    [KialoAgent.response], for its own query: each neighbor that
    [closest_claims(query, n=3, kind='has_cons')] returns for the query of
    repeated contents with the same probability, then each con of that
    neighbor with the same probability.  The lookup is taken to return at
    least one claim, and only claims that have cons. *)
Theorem KialoAgent2_reply_is_random_con
    (self : KialoAgent2.t) (d : ref) (s : State) :
  length (heap s d) <> 0 ->
  let kialo := KialoAgent2.kialo self in
  let q := policy_B (heap s d) in
  let neighbors := Kialo.closest_claims_fn kialo q (Some 3) "has_cons" in
  neighbors <> [] ->
  (forall neighbor, In neighbor neighbors -> Kialo.cons kialo neighbor <> []) ->
  dist (KialoAgent2.response self d) s =
    dbind (uniform neighbors)
      (fun neighbor =>
         dbind (uniform (Kialo.cons kialo neighbor))
           (fun claim => dret (Ok claim, after_choice s q neighbor)))
  /\ forall g : Rng,
       exists neighbor claim,
         In neighbor neighbors
         /\ In claim (Kialo.cons kialo neighbor)
         /\ result (run (KialoAgent2.response self d) g s) = Ok claim
         /\ rng_after (run (KialoAgent2.response self d) g s)
            = mkRng (tape g) (S (S (pos g))).
Proof.
  intros Hlen kialo q neighbors Hsome Hcons. split.
  - rewrite (dist_KialoAgent2_later self d s Hlen). apply dist_reply; assumption.
  - intros g. rewrite (run_KialoAgent2_later self d g s Hlen).
    destruct (run_reply_nonempty kialo q g s Hsome) as (i & nb & Hi & Hrun).
    assert (Hin : In nb neighbors).
    { apply list_elem_of_In, list_elem_of_lookup. exists i. exact Hi. }
    destruct (choose_nonempty (Kialo.cons kialo nb)
                (snd (randbelow (length neighbors) g)) (Hcons nb Hin))
      as (j & claim & Hj & Hch).
    exists nb, claim. fold kialo q. rewrite Hrun. cbn zeta. fold neighbors. rewrite Hch.
    repeat split; try assumption.
    apply list_elem_of_In, list_elem_of_lookup. exists j. exact Hj.
Qed.

Lemma KialoAgent2_reply_is_random_con_witness :
  map (fun x => (fst x, fst (snd x)))
      (dist (KialoAgent2.response (KialoAgent2.mk "Akiki" MoreSamples.kialo_both) 0)
            (Sample.state_of MoreSamples.two_turns))
  = [(Qmult (Qmake 1 2) (Qmult (Qmake 1 1) 1), Ok "C3a");
     (Qmult (Qmake 1 2) (Qmult (Qmake 1 2) 1), Ok "C4a");
     (Qmult (Qmake 1 2) (Qmult (Qmake 1 2) 1), Ok "C4b")]
  /\ forall g : Rng,
       exists neighbor claim,
         In neighbor ["C3"; "C4"]
         /\ In claim (Kialo.cons MoreSamples.kialo_both neighbor)
         /\ result (run (KialoAgent2.response (KialoAgent2.mk "Akiki" MoreSamples.kialo_both) 0)
                      g (Sample.state_of MoreSamples.two_turns)) = Ok claim
         /\ rng_after (run (KialoAgent2.response (KialoAgent2.mk "Akiki" MoreSamples.kialo_both) 0)
                         g (Sample.state_of MoreSamples.two_turns))
            = mkRng (tape g) (S (S (pos g))).
Proof.
  assert (Hcons : forall neighbor, In neighbor ["C3"; "C4"] ->
                                   Kialo.cons MoreSamples.kialo_both neighbor <> []).
  { intros neighbor [<- | [<- | []]]; vm_compute; discriminate. }
  destruct (KialoAgent2_reply_is_random_con
              (KialoAgent2.mk "Akiki" MoreSamples.kialo_both) 0
              (Sample.state_of MoreSamples.two_turns)
              ltac:(discriminate) ltac:(discriminate) Hcons) as [Hdist Hrun].
  split; [rewrite Hdist; vm_compute; reflexivity | exact Hrun].
Defined.

(** ** The query of [KialoAgent2]: its size and its growth *)

Lemma repeat_length (c : string) (n : nat) :
  String.length (PyStr.repeat c n) = n * String.length c.
Proof.
  induction n as [| n IH]; [reflexivity |].
  cbn [PyStr.repeat]. rewrite string_length_app, IH. lia.
Qed.

Lemma join_length (sep : string) (l : list string) :
  String.length (PyStr.join sep l)
  = sum_list (String.length <$> l) + (length l - 1) * String.length sep.
Proof.
  unfold PyStr.join. induction l as [| x l IH]; [reflexivity |].
  destruct l as [| y l].
  - cbn [String.concat fmap list_fmap sum_list sum_list_with length]. unfold id. lia.
  - change (String.concat sep (x :: y :: l)) with (x +:+ sep +:+ String.concat sep (y :: l)).
    rewrite !string_length_app, IH.
    cbn [fmap list_fmap sum_list sum_list_with length]. unfold id. lia.
Qed.

Lemma join_snoc (sep : string) (l : list string) (x : string) :
  l <> [] -> PyStr.join sep (l ++ [x]) = PyStr.join sep l +:+ sep +:+ x.
Proof.
  unfold PyStr.join. intros Hne. induction l as [| a l IH]; [congruence |].
  destruct l as [| b l]; [reflexivity |].
  change (String.concat sep ((a :: b :: l) ++ [x]))
    with (a +:+ sep +:+ String.concat sep ((b :: l) ++ [x])).
  rewrite IH by discriminate.
  change (String.concat sep (a :: b :: l)) with (a +:+ sep +:+ String.concat sep (b :: l)).
  rewrite !string_app_assoc. reflexivity.
Qed.

Lemma policy_B_has_length (turns : Dialogue) :
  String.length (policy_B turns) = policy_B_length turns.
Proof.
  unfold policy_B, policy_B_length. rewrite join_length, fmap_imap, length_imap.
  cbn [String.length]. rewrite Nat.mul_1_r. f_equal. f_equal.
  apply imap_ext. intros i turn _. unfold compose. apply repeat_length.
Qed.

Lemma policy_B_snoc (turns : Dialogue) (turn : Turn) :
  turns <> [] ->
  policy_B (turns ++ [turn])
  = policy_B turns +:+ ";" +:+ PyStr.repeat (content turn) (length turns + 1).
Proof.
  intros Hne. unfold policy_B. rewrite imap_app. cbn [imap].
  rewrite join_snoc, Nat.add_0_r; [reflexivity |].
  intros Hnil. apply Hne. apply (f_equal length) in Hnil.
  rewrite length_imap in Hnil. destruct turns; [reflexivity | discriminate].
Qed.

(** X8.  The query that [KialoAgent2] builds always comes out, and its
    length is the sum over the turns of [i+1] times the length of the
    content of turn [i], plus one separator between neighbouring turns:
    it grows with the square of the number of turns. *)
Theorem KialoAgent2_query_length (d : ref) (g : Rng) (s : State) :
  exists q,
    result (run (KialoAgent2.previous_turn d) g s) = Ok q
    /\ String.length q = policy_B_length (heap s d).
Proof.
  exists (policy_B (heap s d)). rewrite run_previous_turn2.
  split; [reflexivity | apply policy_B_has_length].
Qed.

(** X9.  How the query of [KialoAgent2] grows with the dialogue: one
    more turn at the end of a non-empty dialogue leaves the query built
    so far as it is and adds [";"] and the new content, as many times as
    there are turns now. *)
Theorem KialoAgent2_query_after_one_more_turn
    (d d' : ref) (g g' : Rng) (s s' : State) (turn : Turn) (q : string) :
  length (heap s d) <> 0 ->
  heap s' d' = heap s d ++ [turn] ->
  result (run (KialoAgent2.previous_turn d) g s) = Ok q ->
  result (run (KialoAgent2.previous_turn d') g' s')
  = Ok (q +:+ ";" +:+ PyStr.repeat (content turn) (length (heap s' d'))).
Proof.
  intros Hlen Hmore Hq. rewrite run_previous_turn2 in *. cbn [result fst] in *.
  injection Hq as <-. rewrite Hmore, length_app. cbn [length]. f_equal.
  apply policy_B_snoc. destruct (heap s d); [contradiction | discriminate].
Qed.

Lemma KialoAgent2_query_after_one_more_turn_witness :
  result (run (KialoAgent2.previous_turn 1) Sample.rng
            (Sample.state_of (MoreSamples.two_turns ++ [mkTurn "Darius" "d"])))
  = Ok ("ab;cc" +:+ ";" +:+ PyStr.repeat "d" 3).
Proof.
  apply (KialoAgent2_query_after_one_more_turn 0 1 Sample.rng Sample.rng
           (Sample.state_of MoreSamples.two_turns)
           (Sample.state_of (MoreSamples.two_turns ++ [mkTurn "Darius" "d"]))
           (mkTurn "Darius" "d") "ab;cc").
  - discriminate.
  - reflexivity.
  - reflexivity.
Defined.

(** ** [RAG_Agent.response]: the request and its options *)

Lemma kw_lookup_cons (k' v : string) (kw : Kwargs) (k : string) :
  kw_lookup ((k', v) :: kw) k = if String.eqb k' k then Some v else kw_lookup kw k.
Proof. unfold kw_lookup. cbn [find]. destruct (String.eqb k' k); reflexivity. Qed.

Lemma kw_lookup_app (a b : Kwargs) (k : string) :
  kw_lookup (a ++ b) k =
  match kw_lookup a k with
  | Some v => Some v
  | None => kw_lookup b k
  end.
Proof.
  induction a as [| [k' v] a IH]; [reflexivity |].
  cbn [app]. rewrite !kw_lookup_cons. destruct (String.eqb k' k); [reflexivity | exact IH].
Qed.

Lemma kw_lookup_overridden (a b : Kwargs) (k : string) :
  kw_lookup (map (fun '(k', v) => (k', default v (kw_lookup b k'))) a) k
  = (fun v => default v (kw_lookup b k)) <$> kw_lookup a k.
Proof.
  induction a as [| [k' v] a IH]; [reflexivity |].
  cbn [map]. rewrite !kw_lookup_cons.
  destruct (String.eqb_spec k' k) as [-> | _]; [reflexivity | exact IH].
Qed.

Lemma kw_lookup_others (a b : Kwargs) (k : string) :
  kw_lookup a k = None ->
  kw_lookup (filter (fun '(k', _) => negb (bool_decide (is_Some (kw_lookup a k')))) b) k
  = kw_lookup b k.
Proof.
  intros Hnone. unfold Kwargs in *. induction b as [| [k' v] b IH]; [reflexivity |].
  rewrite filter_cons, kw_lookup_cons.
  destruct (String.eqb_spec k' k) as [-> | Hne].
  - rewrite decide_True; [rewrite kw_lookup_cons, String.eqb_refl; reflexivity |].
    cbn. rewrite Hnone. cbn. exact I.
  - destruct (decide _); [rewrite kw_lookup_cons |]; try exact IH.
    destruct (String.eqb_spec k' k); [contradiction | exact IH].
Qed.

(** [a | b]: the value of [b] where [b] has the key, else the value of
    [a]. *)
Lemma dict_or_lookup (a b : Kwargs) (k : string) :
  kw_lookup (dict_or a b) k =
  match kw_lookup b k with
  | Some v => Some v
  | None => kw_lookup a k
  end.
Proof.
  unfold dict_or. rewrite kw_lookup_app, kw_lookup_overridden.
  destruct (kw_lookup a k) as [va |] eqn:Ha; cbn [fmap option_fmap option_map].
  - destruct (kw_lookup b k); reflexivity.
  - rewrite kw_lookup_others by exact Ha. destruct (kw_lookup b k); reflexivity.
Qed.

Lemma kw_clash_lookup (given : list string) (kw : Kwargs) (k : string) :
  In k given -> is_Some (kw_lookup kw k) -> kw_clash given kw = true.
Proof.
  intros Hin [v Hv]. unfold kw_clash. apply existsb_exists.
  unfold kw_lookup in Hv. destruct (find _ kw) as [[k' v'] |] eqn:Hfind; [| discriminate].
  apply find_some in Hfind as [Hkw Heq]. apply String.eqb_eq in Heq. subst k'.
  exists (k, v'). split; [exact Hkw |].
  apply existsb_exists. exists k. split; [exact Hin | apply String.eqb_refl].
Qed.

Section RAG_request.

Variable dto : Dialogue -> string -> Kwargs -> Outcome (list Message).
Variables (self : RAG_Agent.t) (d : ref) (kialo : Kialo.t) (kwargs : Kwargs).

(** The one request of a run, when there is one. *)
Lemma RAG_Agent_request g s messages model kw :
  In (CallChatCreate messages model kw)
     (new_calls (run (RAG_Agent.response dto self d kialo kwargs) g s) s) ->
  dto (heap s d) (RAG_Agent.name self) (RAG_Agent.kwargs_format self) = Ok messages
  /\ model = RAG_Agent.model self
  /\ kw = dict_or (RAG_Agent.kwargs_llm self) kwargs
  /\ kw_clash ["speaker"] (RAG_Agent.kwargs_format self) = false
  /\ kw_clash ["messages"; "model"] (dict_or (RAG_Agent.kwargs_llm self) kwargs) = false.
Proof.
  intros Hin. rewrite run_RAG_Agent in Hin.
  destruct (kw_clash ["speaker"] _); [new_calls_in Hin; destruct Hin |].
  destruct (dto _ _ _) as [messages' | e]; [| new_calls_in Hin; destruct Hin].
  cbn zeta in Hin.
  destruct (kw_clash ["messages"; "model"] _);
    [new_calls_in Hin; destruct Hin as [Heq | []]; discriminate |].
  destruct (RAG_Agent.client self messages' _ _) as [r | e];
    [destruct (choices r) as [| c rest];
     [| destruct (message_content c); [destruct (DEBUG <? log_level s) |]] |];
    new_calls_in Hin; cbn [In] in Hin;
    repeat match goal with
           | H : _ \/ _ |- _ => destruct H as [H | H]
           | H : False |- _ => destruct H
           | H : CallLog _ _ = CallChatCreate _ _ _ |- _ => discriminate H
           | H : CallChatCreate _ _ _ = CallChatCreate _ _ _ |- _ =>
               injection H as -> -> ->; auto
           end.
Qed.

End RAG_request.

(** X10.  The options of the request: the model is the agent's, and every
    option has the value given in the call of [response] if the call gives
    one, else the value the agent was made with; so an option of the call
    overrides the agent's, as the comment on line 142 says. *)
Theorem RAG_Agent_call_options_override
    (dto : Dialogue -> string -> Kwargs -> Outcome (list Message))
    (self : RAG_Agent.t) (d : ref) (kialo : Kialo.t) (kwargs : Kwargs)
    (g : Rng) (s : State) (messages : list Message) (model : string) (kw : Kwargs) :
  In (CallChatCreate messages model kw)
     (new_calls (run (RAG_Agent.response dto self d kialo kwargs) g s) s) ->
  model = RAG_Agent.model self
  /\ forall k,
       kw_lookup kw k =
       match kw_lookup kwargs k with
       | Some v => Some v
       | None => kw_lookup (RAG_Agent.kwargs_llm self) k
       end.
Proof.
  intros Hin. apply RAG_Agent_request in Hin as (_ & -> & -> & _).
  split; [reflexivity |]. intros k. apply dict_or_lookup.
Qed.

Lemma RAG_Agent_call_options_override_witness :
  "gpt-4o-mini" = RAG_Agent.model (MoreSamples.bob MoreSamples.client_down)
  /\ forall k,
       kw_lookup [("temperature", "0.7"); ("max_tokens", "5"); ("seed", "1")] k =
       match kw_lookup [("max_tokens", "5"); ("seed", "1")] k with
       | Some v => Some v
       | None => kw_lookup (RAG_Agent.kwargs_llm (MoreSamples.bob MoreSamples.client_down)) k
       end.
Proof.
  apply (RAG_Agent_call_options_override Sample.to_messages
           (MoreSamples.bob MoreSamples.client_down) 0 Sample.kialo_C1
           [("max_tokens", "5"); ("seed", "1")] Sample.rng
           (Sample.state_of Sample.one_turn)
           [mkMessage "user" "Vegetarianism is healthy."]).
  vm_compute. right. left. reflexivity.
Defined.

Section RAG_outcomes.

Variable dto : Dialogue -> string -> Kwargs -> Outcome (list Message).
Variables (self : RAG_Agent.t) (d : ref) (kialo : Kialo.t) (kwargs : Kwargs).

Lemma draw_free_RAG_Agent : draw_free (RAG_Agent.response dto self d kialo kwargs).
Proof.
  unfold RAG_Agent.response, RAG_Agent.call_dialogue_to_openai,
    RAG_Agent.chat_completions_create, log_info, log_debug.
  prog_unfold.
  apply draw_free_bind.
  { destruct (kw_clash _ _); [exact I |]. split; [reflexivity |].
    intros turns. apply draw_free_lift_outcome. }
  intros messages. split; [reflexivity |]. intros ?. cbn [pbind].
  apply draw_free_bind.
  { destruct (kw_clash _ _); [exact I |]. split; [reflexivity |].
    intros ?. apply draw_free_lift_outcome. }
  intros resp. split; [reflexivity |]. intros ?. cbn [pbind].
  apply draw_free_bind; [apply draw_free_getitem |].
  intros choice. destruct (message_content choice); [| exact I].
  split; [reflexivity |]. intros level.
  apply draw_free_bind; [| intros; exact I].
  destruct (DEBUG <? level); [split; [reflexivity | intros; exact I] | exact I].
Qed.

(** The run once the request has been made and answered. *)
Lemma run_RAG_Agent_answered g s messages model kw :
  In (CallChatCreate messages model kw)
     (new_calls (run (RAG_Agent.response dto self d kialo kwargs) g s) s) ->
  run (RAG_Agent.response dto self d kialo kwargs) g s =
  let s2 := add_call (add_call s (CallLog INFO (RAG_Agent.calling_msg self messages)))
              (CallChatCreate messages model kw) in
  match RAG_Agent.client self messages model kw with
  | Exc e => (Exc e, g, s2)
  | Ok response =>
    let s3 := add_call s2 (CallLog DEBUG (RAG_Agent.response_msg (completion_repr response))) in
    match choices response with
    | [] => (Exc IndexError, g, s3)
    | choice :: _ =>
      match message_content choice with
      | None => (Exc (ValueError RAG_Agent.no_content_msg), g, s3)
      | Some content =>
        (Ok (RAG_Agent.clean_up self choice content), g,
         if DEBUG <? log_level s
         then add_call s3 (CallLog INFO (RAG_Agent.response_msg
                                           (RAG_Agent.clean_up self choice content)))
         else s3)
      end
    end
  end.
Proof.
  intros Hin. apply RAG_Agent_request in Hin as (Hdto & -> & -> & Hc1 & Hc2).
  rewrite run_RAG_Agent, Hc1, Hdto. cbn zeta. rewrite Hc2. reflexivity.
Qed.

End RAG_outcomes.

(** X11.  A call of [response] that names the model or the messages
    among its options, or an agent made with such an option, never
    reaches the client: the run ends in an exception without a request. *)
Theorem RAG_Agent_reserved_option_fails
    (dto : Dialogue -> string -> Kwargs -> Outcome (list Message))
    (self : RAG_Agent.t) (d : ref) (kialo : Kialo.t) (kwargs : Kwargs)
    (g : Rng) (s : State) (k : string) :
  k = "model" \/ k = "messages" ->
  is_Some (kw_lookup kwargs k) \/ is_Some (kw_lookup (RAG_Agent.kwargs_llm self) k) ->
  let o := run (RAG_Agent.response dto self d kialo kwargs) g s in
  (exists e, result o = Exc e)
  /\ existsb is_chat_call (new_calls o s) = false.
Proof.
  intros Hk Hgiven o. subst o.
  assert (Hclash : kw_clash ["messages"; "model"] (dict_or (RAG_Agent.kwargs_llm self) kwargs)
                   = true).
  { apply (kw_clash_lookup _ _ k).
    - destruct Hk as [-> | ->]; cbn; auto.
    - rewrite dict_or_lookup. destruct (kw_lookup kwargs k) as [v |]; [eexists; reflexivity |].
      destruct Hgiven as [[v Hv] | Hv]; [discriminate | exact Hv]. }
  rewrite run_RAG_Agent.
  destruct (kw_clash ["speaker"] _).
  { split; [eexists; reflexivity |]. rewrite (new_calls_app _ s []); [reflexivity |].
    symmetry. apply app_nil_r. }
  destruct (dto _ _ _) as [messages | e].
  - cbn zeta. rewrite Hclash. split; [eexists; reflexivity |].
    rewrite (new_calls_app _ s [CallLog INFO (RAG_Agent.calling_msg self messages)]);
      reflexivity.
  - split; [eexists; reflexivity |]. rewrite (new_calls_app _ s []); [reflexivity |].
    symmetry. apply app_nil_r.
Qed.

Lemma RAG_Agent_reserved_option_fails_witness :
  let o := run (RAG_Agent.response Sample.to_messages
                  (Sample.alice (mkChoice (Some "Hello.") "stop")) 0 Sample.kialo_C1
                  [("model", "gpt-4")])
               Sample.rng (Sample.state_of Sample.one_turn) in
  (exists e, result o = Exc e)
  /\ existsb is_chat_call (new_calls o (Sample.state_of Sample.one_turn)) = false.
Proof.
  apply (RAG_Agent_reserved_option_fails Sample.to_messages
           (Sample.alice (mkChoice (Some "Hello.") "stop")) 0 Sample.kialo_C1
           [("model", "gpt-4")] Sample.rng (Sample.state_of Sample.one_turn) "model").
  - left. reflexivity.
  - left. eexists. reflexivity.
Defined.

(** X12.  [RAG_Agent.response] asks the client at most once, whatever the
    answer (there is no second try), and it draws no random number. *)
Theorem RAG_Agent_asks_at_most_once
    (dto : Dialogue -> string -> Kwargs -> Outcome (list Message))
    (self : RAG_Agent.t) (d : ref) (kialo : Kialo.t) (kwargs : Kwargs)
    (g : Rng) (s : State) :
  let o := run (RAG_Agent.response dto self d kialo kwargs) g s in
  length (List.filter is_chat_call (new_calls o s)) <= 1
  /\ rng_after o = g.
Proof.
  intros o. subst o. split; [| apply draw_free_run, draw_free_RAG_Agent].
  pose proof (RAG_Agent_calls dto self d kialo kwargs g s) as Hcases. cbv zeta in Hcases.
  destruct Hcases as [-> | (messages & _ & [-> | (logs & -> & Hlogs)])];
    [cbn; lia | cbn; lia |].
  cbn [List.filter is_chat_call length].
  assert (Hnone : List.filter is_chat_call logs = []).
  { clear -Hlogs. induction logs as [| c logs IH]; [reflexivity |].
    cbn [forallb] in Hlogs. apply andb_prop in Hlogs as [Hc Hrest].
    destruct c; try discriminate. cbn [List.filter is_chat_call]. apply IH, Hrest. }
  rewrite Hnone. cbn. lia.
Qed.

(** X13.  An exception of the client is the outcome of [response], and
    nothing is logged after the request that failed. *)
Theorem RAG_Agent_client_error_propagates
    (dto : Dialogue -> string -> Kwargs -> Outcome (list Message))
    (self : RAG_Agent.t) (d : ref) (kialo : Kialo.t) (kwargs : Kwargs)
    (g : Rng) (s : State) (messages : list Message) (model : string) (kw : Kwargs)
    (e : Exn) :
  let o := run (RAG_Agent.response dto self d kialo kwargs) g s in
  In (CallChatCreate messages model kw) (new_calls o s) ->
  RAG_Agent.client self messages model kw = Exc e ->
  result o = Exc e
  /\ new_calls o s = [CallLog INFO (RAG_Agent.calling_msg self messages);
                      CallChatCreate messages model kw].
Proof.
  intros o Hin Hclient. subst o.
  rewrite (run_RAG_Agent_answered dto self d kialo kwargs g s messages model kw Hin).
  cbn zeta. rewrite Hclient. split; [reflexivity | new_calls_of].
Qed.

Lemma RAG_Agent_client_error_propagates_witness :
  let o := run (RAG_Agent.response Sample.to_messages
                  (MoreSamples.bob MoreSamples.client_down) 0 Sample.kialo_C1 [])
               Sample.rng (Sample.state_of Sample.one_turn) in
  result o = Exc (APIError "Connection error.")
  /\ new_calls o (Sample.state_of Sample.one_turn)
     = [CallLog INFO (RAG_Agent.calling_msg (MoreSamples.bob MoreSamples.client_down)
                        [mkMessage "user" "Vegetarianism is healthy."]);
        CallChatCreate [mkMessage "user" "Vegetarianism is healthy."] "gpt-4o-mini"
          [("temperature", "0.7"); ("max_tokens", "50")]].
Proof.
  apply (RAG_Agent_client_error_propagates Sample.to_messages
           (MoreSamples.bob MoreSamples.client_down) 0 Sample.kialo_C1 []
           Sample.rng (Sample.state_of Sample.one_turn)).
  - vm_compute. right. left. reflexivity.
  - reflexivity.
Defined.

(** X14.  A completion without choices makes [response] end in an
    [IndexError]; a completion with choices is judged by the first one
    alone, and when its content is a string the reply is the clean-up of
    that content. *)
Theorem RAG_Agent_uses_first_choice
    (dto : Dialogue -> string -> Kwargs -> Outcome (list Message))
    (self : RAG_Agent.t) (d : ref) (kialo : Kialo.t) (kwargs : Kwargs)
    (g : Rng) (s : State) (messages : list Message) (model : string) (kw : Kwargs)
    (response : Completion) :
  let o := run (RAG_Agent.response dto self d kialo kwargs) g s in
  In (CallChatCreate messages model kw) (new_calls o s) ->
  RAG_Agent.client self messages model kw = Ok response ->
  match choices response with
  | [] => result o = Exc IndexError
  | choice :: _ =>
      forall content, message_content choice = Some content ->
                      result o = Ok (RAG_Agent.clean_up self choice content)
  end.
Proof.
  intros o Hin Hclient. subst o.
  rewrite (run_RAG_Agent_answered dto self d kialo kwargs g s messages model kw Hin).
  cbn zeta. rewrite Hclient.
  destruct (choices response) as [| choice rest]; [reflexivity |].
  intros content ->. reflexivity.
Qed.

Lemma RAG_Agent_uses_first_choice_witness :
  result (run (RAG_Agent.response Sample.to_messages
                 (MoreSamples.bob MoreSamples.client_no_choice) 0 Sample.kialo_C1 [])
              Sample.rng (Sample.state_of Sample.one_turn))
  = Exc IndexError.
Proof.
  apply (RAG_Agent_uses_first_choice Sample.to_messages
           (MoreSamples.bob MoreSamples.client_no_choice) 0 Sample.kialo_C1 []
           Sample.rng (Sample.state_of Sample.one_turn)
           [mkMessage "user" "Vegetarianism is healthy."] "gpt-4o-mini"
           [("temperature", "0.7"); ("max_tokens", "50")]
           (mkCompletion [] "ChatCompletion(choices=[])")).
  - vm_compute. right. left. reflexivity.
  - reflexivity.
Defined.

(** ** [RAG_Agent.response]: the log of the reply *)

Lemma response_msg_is_response_line level body :
  is_response_line (CallLog level (RAG_Agent.response_msg body)) = true.
Proof. unfold is_response_line, RAG_Agent.response_msg. apply prefix_app_refl. Qed.

Lemma calling_msg_is_no_response_line level self messages :
  is_response_line (CallLog level (RAG_Agent.calling_msg self messages)) = false.
Proof.
  unfold is_response_line, RAG_Agent.calling_msg.
  destruct (String.prefix _ _) eqn:Hp; [| reflexivity].
  apply (prefix_cons "R" "C") in Hp as [Hp _]. discriminate.
Qed.

(** X15.  The reply reaches the log once, not twice.  After a successful
    run, among the log calls that pass the level of the logger exactly
    one carries the response when that level is [INFO] or lower, and
    none above [INFO]; between [DEBUG] and [INFO] it is the line with the
    cleaned content. *)
Theorem RAG_Agent_logs_reply_once
    (dto : Dialogue -> string -> Kwargs -> Outcome (list Message))
    (self : RAG_Agent.t) (d : ref) (kialo : Kialo.t) (kwargs : Kwargs)
    (g : Rng) (s : State) (content : string) :
  let o := run (RAG_Agent.response dto self d kialo kwargs) g s in
  result o = Ok content ->
  length (List.filter (fun c => emitted (log_level s) c && is_response_line c)
            (new_calls o s))
  = (if log_level s <=? INFO then 1 else 0)
  /\ (DEBUG < log_level s <= INFO ->
      List.filter (fun c => emitted (log_level s) c && is_response_line c) (new_calls o s)
      = [CallLog INFO (RAG_Agent.response_msg content)]).
Proof.
  intros o Hok. subst o. rewrite run_RAG_Agent in *.
  destruct (kw_clash ["speaker"] _); [discriminate |].
  destruct (dto _ _ _) as [messages | e]; [| discriminate]. cbn zeta in *.
  destruct (kw_clash ["messages"; "model"] _); [discriminate |].
  destruct (RAG_Agent.client self messages _ _) as [response | e]; [| discriminate].
  destruct (choices response) as [| choice rest]; [discriminate |].
  destruct (message_content choice) as [raw |]; [| discriminate].
  cbn [result fst] in Hok. injection Hok as <-.
  unfold DEBUG, INFO in *.
  destruct (Nat.ltb_spec 10 (log_level s)) as [Hhigh | Hlow].
  - rewrite (new_calls_app _ s
               [CallLog 20 (RAG_Agent.calling_msg self messages);
                CallChatCreate messages (RAG_Agent.model self)
                  (dict_or (RAG_Agent.kwargs_llm self) kwargs);
                CallLog 10 (RAG_Agent.response_msg (completion_repr response));
                CallLog 20 (RAG_Agent.response_msg (RAG_Agent.clean_up self choice raw))])
      by (cbn [final snd add_call calls]; rewrite <- !app_assoc; reflexivity).
    cbn [List.filter emitted]. rewrite calling_msg_is_no_response_line,
      !response_msg_is_response_line, !andb_true_r, andb_false_r. cbn [andb].
    destruct (Nat.leb_spec (log_level s) 10) as [Hle | _]; [lia |].
    destruct (Nat.leb_spec (log_level s) 20) as [Hle | Hgt];
      (split; [reflexivity | intros; first [reflexivity | lia]]).
  - rewrite (new_calls_app _ s
               [CallLog 20 (RAG_Agent.calling_msg self messages);
                CallChatCreate messages (RAG_Agent.model self)
                  (dict_or (RAG_Agent.kwargs_llm self) kwargs);
                CallLog 10 (RAG_Agent.response_msg (completion_repr response))])
      by (cbn [final snd add_call calls]; rewrite <- !app_assoc; reflexivity).
    cbn [List.filter emitted]. rewrite calling_msg_is_no_response_line,
      !response_msg_is_response_line, !andb_true_r, andb_false_r. cbn [andb].
    destruct (Nat.leb_spec (log_level s) 10) as [_ | Hgt]; [| lia].
    destruct (Nat.leb_spec (log_level s) 20) as [_ | Hgt]; [| lia].
    split; [reflexivity | intros; lia].
Qed.

Lemma RAG_Agent_logs_reply_once_witness :
  let o := run (RAG_Agent.response Sample.to_messages
                  (Sample.alice (mkChoice (Some "Alice: I disagree.") "stop")) 0
                  Sample.kialo_C1 [])
               Sample.rng (Sample.state_of Sample.one_turn) in
  length (List.filter (fun c => emitted INFO c && is_response_line c)
            (new_calls o (Sample.state_of Sample.one_turn)))
  = 1
  /\ (DEBUG < INFO <= INFO ->
      List.filter (fun c => emitted INFO c && is_response_line c)
        (new_calls o (Sample.state_of Sample.one_turn))
      = [CallLog INFO (RAG_Agent.response_msg "I disagree.")]).
Proof.
  apply (RAG_Agent_logs_reply_once Sample.to_messages
           (Sample.alice (mkChoice (Some "Alice: I disagree.") "stop")) 0
           Sample.kialo_C1 [] Sample.rng (Sample.state_of Sample.one_turn) "I disagree.").
  reflexivity.
Defined.

(** ** The clean-up, in full *)

(** X16.  For a truncated completion the cleaned content ends with the
    marker [" ..."] in every case but one: the raw content is the
    speaker's name followed by a colon and nothing else. *)
Theorem clean_up_marker_iff (self : RAG_Agent.t) (choice : Choice) (raw : string) :
  finish_reason choice = "length" ->
  PyStr.endswith (RAG_Agent.clean_up self choice raw) " ..." = true
  <-> raw <> RAG_Agent.name self +:+ ":".
Proof.
  intros Hfin. split.
  - intros Hends ->. rewrite (clean_up_label_only self choice Hfin) in Hends. discriminate.
  - apply clean_up_truncated_endswith, Hfin.
Qed.

Lemma clean_up_marker_iff_witness :
  PyStr.endswith
    (RAG_Agent.clean_up (Sample.alice (mkChoice (Some "Alice: I think that") "length"))
       (mkChoice (Some "Alice: I think that") "length") "Alice: I think that")
    " ..." = true
  <-> "Alice: I think that" <> "Alice" +:+ ":".
Proof.
  apply (clean_up_marker_iff (Sample.alice (mkChoice (Some "Alice: I think that") "length"))
           (mkChoice (Some "Alice: I think that") "length") "Alice: I think that").
  reflexivity.
Defined.

(** X17.  A content that the model began with the speaker's label comes
    back without it: the clean-up of ["Name: " + body] is [body], with
    the marker behind it when the completion was truncated.  One label
    is taken off, so a body that itself starts with the label keeps it. *)
Theorem clean_up_removes_label (self : RAG_Agent.t) (choice : Choice) (body : string) :
  RAG_Agent.clean_up self choice ((RAG_Agent.name self +:+ ": ") +:+ body)
  = body +:+ (if String.eqb (finish_reason choice) "length" then " ..." else EmptyString).
Proof.
  unfold RAG_Agent.clean_up, PyStr.startswith.
  destruct (String.eqb (finish_reason choice) "length").
  - rewrite string_app_assoc, prefix_app_refl. apply slice_from_prefix.
  - rewrite prefix_app_refl, slice_from_prefix. symmetry. apply string_app_nil_r.
Qed.

(** ** The two queries beyond one turn *)

(** X18.  From the second turn on the two agents ask different
    questions: on a dialogue of two or more turns the query of
    [KialoAgent2] is longer than the last turn's content, which is the
    query of [KialoAgent]. *)
Theorem queries_differ_beyond_one_turn (d : ref) (g : Rng) (s : State) :
  2 <= length (heap s d) ->
  exists q1 q2,
    result (run (KialoAgent.previous_turn d) g s) = Ok q1
    /\ result (run (KialoAgent2.previous_turn d) g s) = Ok q2
    /\ String.length q1 < String.length q2.
Proof.
  intros Hlen. rewrite run_previous_turn2.
  destruct (heap s d) as [| turn turns] eqn:Hheap using rev_ind; [cbn in Hlen; lia |].
  clear IHturns. rewrite length_app in Hlen. cbn [length] in Hlen.
  rewrite (run_previous_turn d g s turn) by (rewrite Hheap; apply last_snoc).
  exists (content turn), (policy_B (turns ++ [turn])). split; [reflexivity |].
  split; [reflexivity |].
  rewrite policy_B_snoc by (destruct turns; [cbn in Hlen; lia | discriminate]).
  rewrite !string_length_app, repeat_length. cbn [String.length]. nia.
Qed.

Lemma queries_differ_beyond_one_turn_witness :
  exists q1 q2,
    result (run (KialoAgent.previous_turn 0) Sample.rng
              (Sample.state_of MoreSamples.two_turns)) = Ok q1
    /\ result (run (KialoAgent2.previous_turn 0) Sample.rng
                 (Sample.state_of MoreSamples.two_turns)) = Ok q2
    /\ String.length q1 < String.length q2.
Proof.
  apply (queries_differ_beyond_one_turn 0 Sample.rng (Sample.state_of MoreSamples.two_turns)).
  cbn. lia.
Defined.
